(** * Stargate refund-address override: codec and route orchestration

    A shallow embedding of [src/index.ts].  The file has three layers:

    - [Hex] and [Abi]: byte strings, their hexadecimal text form and the
      wire format of the [send] call declared by [STARGATE_SEND_ABI];
    - the step classifier and the per-route body of [main], written in a
      small state-and-exception monad over an abstract ledger;
    - the properties of the codec and of the orchestration. *)

From Stdlib Require Import ZArith List Lia Bool.
From Stdlib.Strings Require Import String Ascii Byte.
Import ListNotations.

Local Open Scope string_scope.
Local Open Scope list_scope.
Local Open Scope Z_scope.

(** ** Bytes and big-endian words *)

Definition bytes := list byte.

Definition Z_of_byte (b : byte) : Z := Z.of_N (Byte.to_N b).

Definition byte_of_Z (z : Z) : byte :=
  match Byte.of_N (Z.to_N (z mod 256)) with
  | Some b => b
  | None => x00
  end.

(** [be_bytes n z] is the [n]-byte big-endian representation of [z]
    (of [z mod 256^n] when [z] does not fit). *)
Fixpoint be_bytes (n : nat) (z : Z) : bytes :=
  match n with
  | O => []
  | S k => be_bytes k (z / 256) ++ [byte_of_Z z]
  end.

Definition be_to_Z (bs : bytes) : Z :=
  fold_left (fun acc b => acc * 256 + Z_of_byte b) bs 0.

Definition is_zero (b : byte) : bool := Byte.eqb b x00.

Definition all_zero (bs : bytes) : bool := forallb is_zero bs.

Definition bytes_eqb (a b : bytes) : bool :=
  if list_eq_dec Byte.byte_eq_dec a b then true else false.

(** [slice off len d] is the [len] bytes of [d] that start at [off], when
    they all lie inside [d]. *)
Definition slice (off len : Z) (d : bytes) : option bytes :=
  if (0 <=? off) && (0 <=? len) && (off + len <=? Z.of_nat (List.length d))
  then Some (firstn (Z.to_nat len) (skipn (Z.to_nat off) d))
  else None.

(** ** Hexadecimal text, as viem's [Hex] type carries call data *)

Module Hex.

Definition digit (n : N) : ascii :=
  if (n <? 10)%N then ascii_of_N (48 + n) else ascii_of_N (87 + n).

Definition value (c : ascii) : option N :=
  let n := N_of_ascii c in
  if ((48 <=? n) && (n <=? 57))%N then Some (n - 48)%N
  else if ((97 <=? n) && (n <=? 102))%N then Some (n - 87)%N
  else if ((65 <=? n) && (n <=? 70))%N then Some (n - 55)%N
  else None.

Fixpoint of_bytes (bs : bytes) : string :=
  match bs with
  | [] => EmptyString
  | b :: rest =>
      let n := Byte.to_N b in
      String (digit (n / 16)) (String (digit (n mod 16)) (of_bytes rest))
  end.

Fixpoint to_bytes (s : string) : option bytes :=
  match s with
  | EmptyString => Some []
  | String hi (String lo rest) =>
      match value hi, value lo, to_bytes rest with
      | Some h, Some l, Some bs =>
          match Byte.of_N (16 * h + l) with
          | Some b => Some (b :: bs)
          | None => None
          end
      | _, _, _ => None
      end
  | String _ EmptyString => None
  end.

(** Modelled from the spec: viem's [bytesToHex], which is not part of the
    sources; lower-case digits behind the [0x] prefix. *)
Definition bytesToHex (bs : bytes) : string :=
  String "0" (String "x" (of_bytes bs)).

(** Modelled from the spec: viem's [hexToBytes], which is not part of the
    sources; the bytes behind the [0x] prefix, digits of either case. *)
Definition hexToBytes (s : string) : option bytes :=
  match s with
  | String "0" (String "x" rest) => to_bytes rest
  | _ => None
  end.

End Hex.

(** ** The [send] call of [STARGATE_SEND_ABI] *)

(** [_sendParam]: [(uint32, bytes32, uint256, uint256, bytes, bytes, bytes)]. *)
Record SendParam := {
  dstEid : Z;
  to : bytes;
  amountLD : Z;
  minAmountLD : Z;
  extraOptions : bytes;
  composeMsg : bytes;
  oftCmd : bytes
}.

(** [_fee]: [(uint256, uint256)]. *)
Record Fee := {
  nativeFee : Z;
  lzTokenFee : Z
}.

(** [_refundAddress]: the 20 bytes of an account.  The program carries
    addresses, the recipient and the three byte strings as hexadecimal
    text; they are kept here as the bytes that text denotes, so that the
    case of the digits (which [main] removes with [toLowerCase] before it
    compares two addresses) plays no part. *)
Definition Address := bytes.

(** The value returned by [decodeStargateCalldata] and taken, field by
    field, by [encodeStargateCalldata]. *)
Record TransferCall := {
  sendParam : SendParam;
  fee : Fee;
  refundAddress : Address
}.

Definition uint_ok (bits : Z) (z : Z) : bool := (0 <=? z) && (z <? 2 ^ bits).

Definition len (bs : bytes) : Z := Z.of_nat (List.length bs).

(** Bytes that pad a byte string of length [n] to a multiple of 32. *)
Definition pad32 (n : Z) : Z := (- n) mod 32.

(** The size of the encoding of a [bytes] value: length word, content,
    padding. *)
Definition dyn_size (bs : bytes) : Z := 32 + len bs + pad32 (len bs).

(** Size of the encoded [_sendParam] tuple: seven head words and three
    dynamic tails. *)
Definition sendParam_size (p : SendParam) : Z :=
  224 + dyn_size (extraOptions p) + dyn_size (composeMsg p) + dyn_size (oftCmd p).

(** Values the ABI types admit: integers inside their bit widths, a 32-byte
    recipient, a 20-byte account, and byte strings whose offsets fit a word. *)
Definition wf_sendParam (p : SendParam) : bool :=
  uint_ok 32 (dstEid p)
  && (len (to p) =? 32)
  && uint_ok 256 (amountLD p)
  && uint_ok 256 (minAmountLD p)
  && (sendParam_size p <? 2 ^ 256).

Definition wf_fee (f : Fee) : bool :=
  uint_ok 256 (nativeFee f) && uint_ok 256 (lzTokenFee f).

Definition wf_call (c : TransferCall) : bool :=
  wf_sendParam (sendParam c) && wf_fee (fee c) && (len (refundAddress c) =? 20).

Inductive DecodeError :=
| SelectorMismatch
| Malformed.

Module Abi.

(** Selector of [send((uint32,bytes32,uint256,uint256,bytes,bytes,bytes),
    (uint256,uint256),address)], the constant the step scan compares
    against. *)
Definition send_selector : bytes := [xc7; xc7; xf5; xb3].

Definition word (z : Z) : bytes := be_bytes 32 z.

Definition zeros (n : Z) : bytes := repeat x00 (Z.to_nat n).

(** Modelled from the spec: the encoding of a dynamic [bytes] value,
    "length-prefixed and right-padded to a 32-byte boundary". *)
Definition enc_dyn (bs : bytes) : list bytes :=
  [word (len bs); bs; zeros (pad32 (len bs))].

(** Modelled from the spec: the dynamic-tuple encoding of [_sendParam],
    seven head words, then the three tails; the offsets count from the
    start of the tuple. *)
Definition enc_sendParam (p : SendParam) : list bytes :=
  let off1 := 224 in
  let off2 := off1 + dyn_size (extraOptions p) in
  let off3 := off2 + dyn_size (composeMsg p) in
  [word (dstEid p); to p; word (amountLD p); word (minAmountLD p);
   word off1; word off2; word off3]
  ++ enc_dyn (extraOptions p) ++ enc_dyn (composeMsg p) ++ enc_dyn (oftCmd p).

(** Modelled from the spec: the argument block, a four-word head (offset
    of the dynamic tuple, the two fee words, the account left-padded to a
    word), then the tuple. *)
Definition enc_args (c : TransferCall) : list bytes :=
  [word 128; word (nativeFee (fee c)); word (lzTokenFee (fee c));
   zeros 12 ++ refundAddress c]
  ++ enc_sendParam (sendParam c).

(** Modelled from the spec: the call data of [send], selector first. *)
Definition encode (c : TransferCall) : bytes :=
  send_selector ++ List.concat (enc_args c).

(** Reading back. *)

Definition bind {A B} (o : option A) (k : A -> option B) : option B :=
  match o with
  | Some a => k a
  | None => None
  end.

Definition guard (b : bool) : option unit := if b then Some tt else None.

Notation "x <- o ;; k" := (bind o (fun x => k))
  (at level 61, o at next level, right associativity).
Notation "'check' b ;; k" := (bind (guard b) (fun _ => k))
  (at level 61, b at next level, right associativity).

Definition read_word (off : Z) (d : bytes) : option Z :=
  option_map be_to_Z (slice off 32 d).

(** Modelled from the spec: an unsigned integer of [bits] bits; bytes
    above its width that are not zero are invalid padding. *)
Definition read_uint (bits : Z) (off : Z) (d : bytes) : option Z :=
  z <- read_word off d ;;
  check (z <? 2 ^ bits) ;;
  Some z.

(** Modelled from the spec: a 20-byte account in a word, behind twelve
    zero bytes. *)
Definition read_address (off : Z) (d : bytes) : option Address :=
  w <- slice off 32 d ;;
  check (all_zero (firstn 12 w)) ;;
  Some (skipn 12 w).

(** Modelled from the spec: a dynamic [bytes] value at [off]; a content
    or a padding that runs past the end, or a padding byte that is not
    zero, is malformed. *)
Definition read_dyn (off : Z) (d : bytes) : option bytes :=
  n <- read_word off d ;;
  bs <- slice (off + 32) n d ;;
  pad <- slice (off + 32 + n) (pad32 n) d ;;
  check (all_zero pad) ;;
  Some bs.

(** Modelled from the spec: the [_sendParam] tuple that starts at [base],
    its tails found through the offsets of its head. *)
Definition dec_sendParam (base : Z) (d : bytes) : option SendParam :=
  eid <- read_uint 32 base d ;;
  rcpt <- slice (base + 32) 32 d ;;
  amount <- read_word (base + 64) d ;;
  minAmount <- read_word (base + 96) d ;;
  off1 <- read_word (base + 128) d ;;
  off2 <- read_word (base + 160) d ;;
  off3 <- read_word (base + 192) d ;;
  opts <- read_dyn (base + off1) d ;;
  msg <- read_dyn (base + off2) d ;;
  cmd <- read_dyn (base + off3) d ;;
  Some {| dstEid := eid; to := rcpt; amountLD := amount;
          minAmountLD := minAmount; extraOptions := opts;
          composeMsg := msg; oftCmd := cmd |}.

(** Modelled from the spec: the argument block behind the selector. *)
Definition dec_args (d : bytes) : option TransferCall :=
  base <- read_word 0 d ;;
  nf <- read_word 32 d ;;
  lf <- read_word 64 d ;;
  refund <- read_address 96 d ;;
  p <- dec_sendParam base d ;;
  Some {| sendParam := p;
          fee := {| nativeFee := nf; lzTokenFee := lf |};
          refundAddress := refund |}.

(** Modelled from the spec: "inspects the leading 4-byte discriminator;
    if it does not match the fixed transfer-call discriminator, fails with
    SelectorMismatch", then parses the rest, [Malformed] when that fails. *)
Definition decode (d : bytes) : DecodeError + TransferCall :=
  if bytes_eqb (firstn 4 d) send_selector then
    match dec_args (skipn 4 d) with
    | Some c => inr c
    | None => inl Malformed
    end
  else inl SelectorMismatch.

End Abi.

(** ** The codec functions of [src/index.ts] *)

(** The two functions that [src/index.ts] imports from the [viem] package
    and hands [STARGATE_SEND_ABI] to. *)
Record Viem := {
  decodeFunctionData : string -> DecodeError + TransferCall;
  encodeFunctionData : SendParam -> Fee -> Address -> string
}.

(** Modelled from the spec: [decodeFunctionData] and [encodeFunctionData]
    belong to the [viem] package, which is not part of the sources.  They
    follow the wire format of section 6 for the argument list declared by
    [STARGATE_SEND_ABI]: selector, head words, dynamic tuple; a wrong
    selector is [SelectorMismatch], truncated fields or non-zero padding
    are [Malformed].  Call data is hexadecimal text. *)
Definition viem : Viem := {|
  decodeFunctionData := fun calldata =>
    match Hex.hexToBytes calldata with
    | Some d => Abi.decode d
    | None => inl Malformed
    end;
  encodeFunctionData := fun p f refund =>
    Hex.bytesToHex
      (Abi.encode {| sendParam := p; fee := f; refundAddress := refund |})
|}.

(** What the program can throw. *)
Inductive Thrown :=
| MissingPrivateKey
    (* Error("TEST_PRIVATE_KEY not found in environment variables") *)
| QuoteFetchFailed (status : Z) (body : string)
    (* Error("Failed to fetch Stargate quote: ...") *)
| NoStargateRoutes
    (* Error("No Stargate routes found in quote response") *)
| DecodeFailed (cause : DecodeError)
    (* Error("Failed to decode calldata: " + cause.message) *)
| BigIntSyntaxError (text : string)
    (* thrown by BigInt() on text that is no integer literal *)
| External (message : string).
    (* thrown by a collaborator: the account library or the ledger client *)

Section Codec.

Variable lib : Viem.

(** [decodeStargateCalldata]: any error of the library is caught and
    thrown again under the prefix "Failed to decode calldata: ". *)
Definition decodeStargateCalldata (calldata : string) : Thrown + TransferCall :=
  match decodeFunctionData lib calldata with
  | inr decoded =>
      inr {| sendParam := sendParam decoded;
             fee := fee decoded;
             refundAddress := refundAddress decoded |}
  | inl error => inl (DecodeFailed error)
  end.

(** [encodeStargateCalldata]. *)
Definition encodeStargateCalldata (p : SendParam) (f : Fee)
    (refund : Address) : string :=
  encodeFunctionData lib p f refund.

End Codec.

(** ** Quotes *)

Module Transaction.
Record t := {
  data : string;
  to : string;
  value : string;
  from : string
}.
End Transaction.

Module FeeLine.
Record t := {
  token : string;
  chainKey : string;
  amount : string;
  type : string
}.
End FeeLine.

Record Step := {
  type : string;
  sender : string;
  chainKey : string;
  transaction : Transaction.t
}.

Record StargateQuote := {
  route : string;
  error : option string;
  srcAmount : string;
  dstAmount : string;
  srcToken : string;
  dstToken : string;
  srcAddress : string;
  dstAddress : string;
  srcChainKey : string;
  dstChainKey : string;
  fees : list FeeLine.t;
  steps : list Step
}.

Record QuoteResponse := {
  quotes : list StargateQuote
}.

(** The arguments of [getStargateQuote]. *)
Record QuoteParams := {
  q_srcToken : string;
  q_srcChainKey : string;
  q_dstToken : string;
  q_dstChainKey : string;
  q_srcAddress : string;
  q_dstAddress : string;
  q_srcAmount : string;
  q_dstAmountMin : string
}.

(** ** Step classification *)

(** The three variables of the scan: [approvalStep], [sendStep],
    [sendStepIndex]. *)
Record Scan := {
  approvalStep : option Step;
  sendStep : option Step;
  sendStepIndex : Z
}.

Definition scan_start : Scan :=
  {| approvalStep := None; sendStep := None; sendStepIndex := -1 |}.

Definition approve_selector_hex : string := "0x095ea7b3".
Definition send_selector_hex : string := "0xc7c7f5b3".

(** [txData.substring(0, 10)]. *)
Definition functionSelector (txData : string) : string := substring 0 10 txData.

(** A string is truthy when it is not empty. *)
Definition truthy (s : string) : bool := negb (s =? "")%string.

(** One turn of the scan, at index [i].  [step.transaction?.data] is the
    call data of the step: the interface [StargateQuote] makes the
    transaction and its data present in every step. *)
Definition scan_step (acc : Scan) (i : nat) (step : Step) : Scan :=
  let txData := Transaction.data (transaction step) in
  if truthy txData then
    if (functionSelector txData =? approve_selector_hex)%string then
      {| approvalStep := Some step;
         sendStep := sendStep acc;
         sendStepIndex := sendStepIndex acc |}
    else if (functionSelector txData =? send_selector_hex)%string then
      {| approvalStep := approvalStep acc;
         sendStep := Some step;
         sendStepIndex := Z.of_nat i |}
    else acc
  else acc.

(** The scan from index [i] on. *)
Fixpoint scan_from (i : nat) (l : list Step) (acc : Scan) : Scan :=
  match l with
  | [] => acc
  | step :: rest => scan_from (S i) rest (scan_step acc i step)
  end.

(** [for (let i = 0; i < quote.steps.length; i++) ...]. *)
Definition classify (l : list Step) : Scan := scan_from 0 l scan_start.

(** ** The ledger, the trace and the monad of [main] *)

Definition Hash := string.

Inductive ReceiptStatus := success | reverted.

(** The argument of [client.sendTransaction]; [tx_value] is absent when
    the call site passes no [value]. *)
Record TxRequest := {
  tx_to : string;
  tx_value : option Z;
  tx_data : string
}.

(** The two call sites of the ledger client inside a route. *)
Inductive Site := AtApproval | AtTransfer.

Inductive Event :=
| SendTransaction (site : Site) (req : TxRequest)
| WaitForTransactionReceipt (site : Site) (hash : Hash)
| FetchQuote (params : QuoteParams)
| LogRoute (name : string) (totalSteps : nat)
| LogStep (i : nat) (kind selector : string)
| LogApprovalConfirmed
| WarnNoSend (prefixes : list (nat * string * string))
| LogUsingStep (index : Z)
| WarnSameRefund
| LogVerification (matches : bool)
| LogReceipt (status : ReceiptStatus)
| LogTransactionFailed (e : Thrown)
| LogCompleted
| LogError (e : Thrown).

(** The HTTP response that [getStargateQuote] looks at. *)
Record Response := {
  ok : bool;
  status : Z;
  text : string;
  json : QuoteResponse
}.

(** The collaborators, over a state [W] of the outside world: every call
    answers or throws, and moves the world on. *)
Record Env (W : Type) := {
  TEST_PRIVATE_KEY : option string;
  privateKeyToAccount : string -> string + string;
  fetch : QuoteParams -> W -> (string + Response) * W;
  sendTransaction : TxRequest -> W -> (string + Hash) * W;
  waitForTransactionReceipt : Hash -> W -> (string + ReceiptStatus) * W;
  BigInt : string -> option Z
}.

Arguments TEST_PRIVATE_KEY {W}.
Arguments privateKeyToAccount {W}.
Arguments fetch {W}.
Arguments sendTransaction {W}.
Arguments waitForTransactionReceipt {W}.
Arguments BigInt {W}.

(** The state threaded through a run: the world and what has happened so
    far, oldest event first. *)
Record State (W : Type) := {
  world : W;
  trace : list Event
}.

Arguments world {W}.
Arguments trace {W}.

(** A computation answers or throws; its effects on the state stay in
    either case. *)
Definition M (W A : Type) : Type := State W -> (Thrown + A) * State W.

Definition ret {W A} (a : A) : M W A := fun s => (inr a, s).

Definition throw {W A} (e : Thrown) : M W A := fun s => (inl e, s).

Definition mbind {W A B} (m : M W A) (k : A -> M W B) : M W B :=
  fun s =>
    match m s with
    | (inr a, s') => k a s'
    | (inl e, s') => (inl e, s')
    end.

(** [try { m } catch (e) { h e }]. *)
Definition try_catch {W A} (m : M W A) (h : Thrown -> M W A) : M W A :=
  fun s =>
    match m s with
    | (inr a, s') => (inr a, s')
    | (inl e, s') => h e s'
    end.

Definition emit {W} (e : Event) : M W unit :=
  fun s => (inr tt, {| world := world s; trace := trace s ++ [e] |}).

Definition emit_all {W} (es : list Event) : M W unit :=
  fun s => (inr tt, {| world := world s; trace := trace s ++ es |}).

Definition lift {W A} (r : Thrown + A) : M W A :=
  match r with
  | inr a => ret a
  | inl e => throw e
  end.

(** A call of a collaborator: recorded, then answered by the world. *)
Definition call {W A} (e : Event) (f : W -> (string + A) * W) : M W A :=
  fun s =>
    let (r, w') := f (world s) in
    let s' := {| world := w'; trace := trace s ++ [e] |} in
    match r with
    | inr a => (inr a, s')
    | inl msg => (inl (External msg), s')
    end.

Declare Scope run_scope.
Delimit Scope run_scope with run.
Notation "x <- m ;; k" := (mbind m (fun x => k))
  (at level 61, m at next level, right associativity) : run_scope.
Notation "m ;; k" := (mbind m (fun _ => k))
  (at level 61, right associativity) : run_scope.

(** How the body of the route loop ends: [break], or [continue] (also
    when it runs to its end). *)
Inductive LoopControl := Break | Continue.

(** The hardcoded refund address, 0xdeadbeef...deadbeef. *)
Definition customRefundAddress : Address :=
  [xde; xad; xbe; xef; xde; xad; xbe; xef; xde; xad; xbe; xef;
   xde; xad; xbe; xef; xde; xad; xbe; xef].

(** The quote parameters of [main]: Base USDC to Arbitrum USDC. *)
Definition quoteParams (account : string) : QuoteParams :=
  {| q_srcToken := "0x833589fCD6eDb6E08f4c7C32D4f71b54bdA02913";
     q_srcChainKey := "base";
     q_dstToken := "0xaf88d065e77c8cC2239327C5EDb3A432268e5831";
     q_dstChainKey := "arbitrum";
     q_srcAddress := account;
     q_dstAddress := account;
     q_srcAmount := "1000000";
     q_dstAmountMin := "950000" |}.

(** The log lines of the scan, one per step with call data. *)
Fixpoint step_logs (i : nat) (l : list Step) : list Event :=
  match l with
  | [] => []
  | step :: rest =>
      let txData := Transaction.data (transaction step) in
      (if truthy txData
       then [LogStep i (type step) (functionSelector txData)]
       else [])
      ++ step_logs (S i) rest
  end.

(** [quote.steps.map((s, i) => ({index, type, calldataPrefix}))]. *)
Fixpoint step_prefixes (i : nat) (l : list Step) : list (nat * string * string) :=
  match l with
  | [] => []
  | s :: rest =>
      (i, type s, functionSelector (Transaction.data (transaction s)))
      :: step_prefixes (S i) rest
  end.

Section Orchestrator.

Context {W : Type}.
Variable env : Env W.
Variable lib : Viem.

Local Open Scope run_scope.

(** [getStargateQuote]. *)
Definition getStargateQuote (params : QuoteParams) : M W QuoteResponse :=
  response <- call (FetchQuote params) (fetch env params) ;;
  if ok response then ret (json response)
  else throw (QuoteFetchFailed (status response) (text response)).

(** The approval, when the scan found one: submitted with [to] and
    [data] only, then awaited. *)
Definition handleApproval (found : option Step) : M W unit :=
  match found with
  | Some approval =>
      approvalHash <-
        call (SendTransaction AtApproval
                {| tx_to := Transaction.to (transaction approval);
                   tx_value := None;
                   tx_data := Transaction.data (transaction approval) |})
             (sendTransaction env
                {| tx_to := Transaction.to (transaction approval);
                   tx_value := None;
                   tx_data := Transaction.data (transaction approval) |}) ;;
      call (WaitForTransactionReceipt AtApproval approvalHash)
           (waitForTransactionReceipt env approvalHash) ;;
      emit LogApprovalConfirmed
  | None => ret tt
  end.

(** The guarded submission: [try { send; wait; break } catch { continue }]. *)
Definition submitTransfer (req : TxRequest) : M W LoopControl :=
  try_catch
    (hash <- call (SendTransaction AtTransfer req) (sendTransaction env req) ;;
     receipt <- call (WaitForTransactionReceipt AtTransfer hash)
                     (waitForTransactionReceipt env hash) ;;
     emit (LogReceipt receipt) ;;
     ret Break)
    (fun txError =>
       emit (LogTransactionFailed txError) ;;
       ret Continue).

(** The part of the loop body behind [if (!sendStep) continue]. *)
Definition handleSend (step : Step) (index : Z) : M W LoopControl :=
  emit (LogUsingStep index) ;;
  let txData := Transaction.data (transaction step) in
  decoded <- lift (decodeStargateCalldata lib txData) ;;
  let newRefundAddress := customRefundAddress in
  (if bytes_eqb (refundAddress decoded) newRefundAddress
   then emit WarnSameRefund else ret tt) ;;
  let newCalldata :=
    encodeStargateCalldata lib (sendParam decoded) (fee decoded) newRefundAddress in
  verifyDecoded <- lift (decodeStargateCalldata lib newCalldata) ;;
  emit (LogVerification (bytes_eqb (refundAddress verifyDecoded) newRefundAddress)) ;;
  txValue <-
    lift (match BigInt env (Transaction.value (transaction step)) with
          | Some v => inr v
          | None => inl (BigIntSyntaxError (Transaction.value (transaction step)))
          end) ;;
  submitTransfer
    {| tx_to := Transaction.to (transaction step);
       tx_value := Some txValue;
       tx_data := newCalldata |}.

(** The body of [for (const quote of stargateQuotes)]. *)
Definition processRoute (quote : StargateQuote) : M W LoopControl :=
  emit (LogRoute (route quote) (List.length (steps quote))) ;;
  emit_all (step_logs 0 (steps quote)) ;;
  let found := classify (steps quote) in
  handleApproval (approvalStep found) ;;
  match sendStep found with
  | None =>
      emit (WarnNoSend (step_prefixes 0 (steps quote))) ;;
      ret Continue
  | Some step => handleSend step (sendStepIndex found)
  end.

(** The route loop. *)
Fixpoint forRoutes (stargateQuotes : list StargateQuote) : M W unit :=
  match stargateQuotes with
  | [] => ret tt
  | quote :: rest =>
      control <- processRoute quote ;;
      match control with
      | Break => ret tt
      | Continue => forRoutes rest
      end
  end.

Definition isStargate (q : StargateQuote) : bool :=
  prefix "stargate/" (route q).

(** The part of [main] before the route loop: key, account, quote,
    filter. *)
Definition prelude : M W (list StargateQuote) :=
  privateKey <-
    lift (match TEST_PRIVATE_KEY env with
          | Some k => if truthy k then inr k else inl MissingPrivateKey
          | None => inl MissingPrivateKey
          end) ;;
  account <-
    lift (match privateKeyToAccount env privateKey with
          | inr a => inr a
          | inl msg => inl (External msg)
          end) ;;
  quoteResponse <- getStargateQuote (quoteParams account) ;;
  let stargateQuotes := filter isStargate (quotes quoteResponse) in
  (if (List.length stargateQuotes =? 0)%nat
   then throw NoStargateRoutes else ret tt) ;;
  ret stargateQuotes.

(** [main]; the result is the exit code of the process: 1 from
    [process.exit(1)] in the outer handler, 0 when [main] returns. *)
Definition main : M W Z :=
  try_catch
    (stargateQuotes <- prelude ;;
     forRoutes stargateQuotes ;;
     emit LogCompleted ;;
     ret 0)
    (fun error =>
       emit (LogError error) ;;
       ret 1).

End Orchestrator.

(** ** A scripted ledger, for running the model on concrete quotes *)

Inductive Reply :=
| Sent (hash : Hash)
| SendFails (message : string)
| Receipt (status : ReceiptStatus)
| WaitFails (message : string).

(** Decimal literals, as the quote API writes the [value] of a step; the
    empty text is zero. *)
Fixpoint decimal_from (acc : Z) (s : string) : option Z :=
  match s with
  | EmptyString => Some acc
  | String c rest =>
      let n := N_of_ascii c in
      if ((48 <=? n) && (n <=? 57))%N
      then decimal_from (10 * acc + Z.of_N (n - 48)) rest
      else None
  end.

(** A world that is the list of replies still to come: each call of the
    ledger takes the next one. *)
Definition scripted (response : QuoteResponse) : Env (list Reply) := {|
  TEST_PRIVATE_KEY := Some "0x01";
  privateKeyToAccount := fun _ => inr "0x00000000000000000000000000000000000000aa";
  fetch := fun _ w =>
    (inr {| ok := true; status := 200; text := ""; json := response |}, w);
  sendTransaction := fun _ w =>
    match w with
    | Sent h :: w' => (inr h, w')
    | SendFails m :: w' => (inl m, w')
    | _ => (inl "no reply", tl w)
    end;
  waitForTransactionReceipt := fun _ w =>
    match w with
    | Receipt st :: w' => (inr st, w')
    | WaitFails m :: w' => (inl m, w')
    | _ => (inl "no reply", tl w)
    end;
  BigInt := decimal_from 0
|}.

Definition start {W} (w : W) : State W := {| world := w; trace := [] |}.

(** Sample data. *)

Definition sample_to : bytes := be_bytes 32 170.

Definition sample_call (refund : Address) : TransferCall := {|
  sendParam := {| dstEid := 30110; to := sample_to; amountLD := 1000000;
                  minAmountLD := 950000; extraOptions := [];
                  composeMsg := []; oftCmd := [x01] |};
  fee := {| nativeFee := 2 ^ 256 - 1; lzTokenFee := 0 |};
  refundAddress := refund
|}.

Definition sample_refund : Address := repeat x11 20.

Definition sample_calldata : string :=
  encodeStargateCalldata viem (sendParam (sample_call sample_refund))
    (fee (sample_call sample_refund)) sample_refund.

Definition mk_step (kind calldata value : string) : Step := {|
  type := kind; sender := "0xaa"; chainKey := "base";
  transaction := {| Transaction.data := calldata;
                    Transaction.to := "0xrouter";
                    Transaction.value := value;
                    Transaction.from := "0xaa" |}
|}.

Definition mk_quote (name : string) (l : list Step) : StargateQuote := {|
  route := name; error := None; srcAmount := "1000000"; dstAmount := "999000";
  srcToken := "usdc"; dstToken := "usdc"; srcAddress := "0xaa";
  dstAddress := "0xaa"; srcChainKey := "base"; dstChainKey := "arbitrum";
  fees := []; steps := l
|}.

Definition step_A : Step := mk_step "approve" "0x095ea7b3aa" "0".
Definition step_B : Step := mk_step "other" "0x12345678" "0".
Definition step_C : Step := mk_step "bridge" sample_calldata "7".
Definition step_D : Step := mk_step "bridge" "0xc7c7f5b3" "9".
Definition step_E : Step := mk_step "approve" "0x095ea7b3bb" "0".


Definition taxi : StargateQuote := mk_quote "stargate/taxi" [step_A; step_C].
Definition bus : StargateQuote := mk_quote "stargate/bus" [step_C].
Definition truncated : StargateQuote := mk_quote "stargate/short" [step_D].

Definition two_routes : QuoteResponse := {| quotes := [taxi; bus] |}.

(** ** Vocabulary of the statements *)

(** The routes a trace shows as attempted, oldest first. *)
Fixpoint attempted (tr : list Event) : list string :=
  match tr with
  | [] => []
  | LogRoute name _ :: rest => name :: attempted rest
  | _ :: rest => attempted rest
  end.

(** The requests a trace shows as submitted at a call site. *)
Fixpoint submitted (site : Site) (tr : list Event) : list TxRequest :=
  match tr with
  | [] => []
  | SendTransaction at_site req :: rest =>
      match site, at_site with
      | AtApproval, AtApproval | AtTransfer, AtTransfer => req :: submitted site rest
      | _, _ => submitted site rest
      end
  | _ :: rest => submitted site rest
  end.

(** A step whose call data starts with the selector [sel]. *)
Definition has_selector (sel : string) (step : Step) : bool :=
  (functionSelector (Transaction.data (transaction step)) =? sel)%string.

(** [step], at index [i], is the last step of [l] that satisfies [p]. *)
Definition last_match (p : Step -> bool) (l : list Step) (i : nat) (step : Step) : Prop :=
  nth_error l i = Some step /\ p step = true /\
  forall j later, (i < j)%nat -> nth_error l j = Some later -> p later = false.

(** [step], at index [i], is the first step of [l] that satisfies [p]. *)
Definition first_match (p : Step -> bool) (l : list Step) (i : nat) (step : Step) : Prop :=
  nth_error l i = Some step /\ p step = true /\
  forall j earlier, (j < i)%nat -> nth_error l j = Some earlier -> p earlier = false.

Definition no_match (p : Step -> bool) (l : list Step) : Prop :=
  forall step, In step l -> p step = false.

(** What the scan has found after the steps [seen]: each variable holds the
    last matching step so far. *)
Definition scan_inv (seen : list Step) (acc : Scan) : Prop :=
  match approvalStep acc with
  | Some a => exists i, last_match (has_selector approve_selector_hex) seen i a
  | None => no_match (has_selector approve_selector_hex) seen
  end /\
  match sendStep acc with
  | Some t =>
      exists i, sendStepIndex acc = Z.of_nat i /\
                last_match (has_selector send_selector_hex) seen i t
  | None =>
      sendStepIndex acc = -1 /\ no_match (has_selector send_selector_hex) seen
  end.

(** The route loop, entered with [qs] in state [s], throws [e] in state
    [s']; and [main], whenever its loop comes to this point, reports [e]
    and ends with exit code 1. *)
Definition run_aborts {W} (env : Env W) (lib : Viem) (qs : list StargateQuote)
    (s : State W) (e : Thrown) (s' : State W) : Prop :=
  forRoutes env lib qs s = (inl e, s') /\
  forall s0 all sa,
    prelude env s0 = (inr all, sa) ->
    forRoutes env lib all sa = forRoutes env lib qs s ->
    main env lib s0 = (inr 1, {| world := world s'; trace := trace s' ++ [LogError e] |}).

(** The warning of the override, logged when the decoded refund address is
    already the custom one. *)
Definition same_refund_warning (decoded : TransferCall) : list Event :=
  if bytes_eqb (refundAddress decoded) customRefundAddress
  then [WarnSameRefund] else [].

(** The call data of the override: the decoded parameters and fee, encoded
    again with the custom refund address. *)
Definition reencoded (lib : Viem) (decoded : TransferCall) : string :=
  encodeStargateCalldata lib (sendParam decoded) (fee decoded) customRefundAddress.

(** The events of a route between the scan and the submission of the
    transfer. *)
Definition override_logs (index : Z) (decoded verifyDecoded : TransferCall) : list Event :=
  [LogUsingStep index] ++ same_refund_warning decoded
  ++ [LogVerification (bytes_eqb (refundAddress verifyDecoded) customRefundAddress)].

(** The state of a route once its header and its step lines are logged. *)
Definition logged {W} (quote : StargateQuote) (s : State W) : State W :=
  {| world := world s;
     trace := (trace s ++ [LogRoute (route quote) (List.length (steps quote))])
              ++ step_logs 0 (steps quote) |}.

(** The state [s] with the events [es] appended and the world [w]. *)
Definition after {W} (s : State W) (w : W) (es : list Event) : State W :=
  {| world := w; trace := trace s ++ es |}.

(** The request of the transfer submission for [step], with the call data
    [calldata] and the value [v]. *)
Definition transferRequest (step : Step) (v : Z) (calldata : string) : TxRequest :=
  {| tx_to := Transaction.to (transaction step);
     tx_value := Some v;
     tx_data := calldata |}.

(** The request of the approval submission for [step]. *)
Definition approvalRequest (step : Step) : TxRequest :=
  {| tx_to := Transaction.to (transaction step);
     tx_value := None;
     tx_data := Transaction.data (transaction step) |}.

(** A call with every integer at its maximum and every byte string empty. *)
Definition extreme_call : TransferCall := {|
  sendParam := {| dstEid := 2 ^ 32 - 1; to := repeat xff 32;
                  amountLD := 2 ^ 256 - 1; minAmountLD := 2 ^ 256 - 1;
                  extraOptions := []; composeMsg := []; oftCmd := [] |};
  fee := {| nativeFee := 2 ^ 256 - 1; lzTokenFee := 2 ^ 256 - 1 |};
  refundAddress := repeat xff 20
|}.

(** What a transfer request of [step] can be: the re-encoding of what
    the step's call data decodes to, which itself decodes. *)
Definition derived_from (lib : Viem) (step : Step) (req : TxRequest) : Prop :=
  exists decoded verifyDecoded v,
    decodeStargateCalldata lib (Transaction.data (transaction step)) = inr decoded /\
    decodeStargateCalldata lib (reencoded lib decoded) = inr verifyDecoded /\
    req = transferRequest step v (reencoded lib decoded).

(** ** Further vocabulary: receipts, joined scans, more sample data *)

(** The receipts a trace shows as logged, oldest first. *)
Fixpoint receipts (tr : list Event) : list ReceiptStatus :=
  match tr with
  | [] => []
  | LogReceipt st :: rest => st :: receipts rest
  | _ :: rest => receipts rest
  end.

(** The scan of a list in two parts: what the second part found replaces
    what the first part found, and an index found in the second part
    counts from the length [n] of the first. *)
Definition scan_join (n : nat) (first second : Scan) : Scan :=
  {| approvalStep :=
       match approvalStep second with
       | Some a => Some a
       | None => approvalStep first
       end;
     sendStep :=
       match sendStep second with
       | Some t => Some t
       | None => sendStep first
       end;
     sendStepIndex :=
       match sendStep second with
       | Some _ => Z.of_nat n + sendStepIndex second
       | None => sendStepIndex first
       end |}.

(** The events of a route that has neither an approval nor a send step. *)
Definition skipped_events (quote : StargateQuote) : list Event :=
  LogRoute (route quote) (List.length (steps quote))
  :: step_logs 0 (steps quote)
  ++ [WarnNoSend (step_prefixes 0 (steps quote))].

(** A scripted world with a chosen key and a chosen answer of the quote
    service. *)
Definition scripted_with (key : option string) (response : Response) :
    Env (list Reply) := {|
  TEST_PRIVATE_KEY := key;
  privateKeyToAccount := privateKeyToAccount (scripted (json response));
  fetch := fun _ w => (inr response, w);
  sendTransaction := sendTransaction (scripted (json response));
  waitForTransactionReceipt := waitForTransactionReceipt (scripted (json response));
  BigInt := BigInt (scripted (json response))
|}.

Definition unavailable : Response :=
  {| ok := false; status := 503; text := "Service Unavailable";
     json := {| quotes := [] |} |}.

Definition step_F : Step := mk_step "bridge" sample_calldata "1e18".
Definition bad_value : StargateQuote := mk_quote "stargate/value" [step_F].
Definition foreign : StargateQuote := mk_quote "auri/fast" [step_C].
Definition idle : StargateQuote := mk_quote "stargate/idle" [step_B].
Definition send_then_approve : StargateQuote :=
  mk_quote "stargate/late" [step_C; step_A].

(** A scan whose steps are changed by [f]. *)
Definition scan_map (f : Step -> Step) (found : Scan) : Scan :=
  {| approvalStep := option_map f (approvalStep found);
     sendStep := option_map f (sendStep found);
     sendStepIndex := sendStepIndex found |}.

(** A step with everything changed but its call data. *)
Definition disguise (step : Step) : Step :=
  {| type := "unknown"; sender := "0x00"; chainKey := "nowhere";
     transaction :=
       {| Transaction.data := Transaction.data (transaction step);
          Transaction.to := "0x00";
          Transaction.value := "";
          Transaction.from := "0x00" |} |}.

(** A transfer step whose call data already names the custom refund
    address. *)
Definition step_G : Step :=
  mk_step "bridge"
    (encodeStargateCalldata viem (sendParam (sample_call customRefundAddress))
       (fee (sample_call customRefundAddress)) customRefundAddress)
    "7".

Definition bus_then_taxi : QuoteResponse := {| quotes := [bus; taxi] |}.

(** * Properties *)

(** ** Bytes and words *)


Lemma Z_of_byte_of_Z (z : Z) : Z_of_byte (byte_of_Z z) = z mod 256.
Proof.
  unfold Z_of_byte, byte_of_Z.
  assert (Hr : 0 <= z mod 256 < 256) by (apply Z.mod_pos_bound; lia).
  destruct (Byte.of_N (Z.to_N (z mod 256))) as [b|] eqn:E.
  - apply Byte.to_of_N in E. rewrite E. lia.
  - apply Byte.of_N_None_iff in E. lia.
Qed.

Lemma length_be_bytes (n : nat) (z : Z) : List.length (be_bytes n z) = n.
Proof.
  revert z. induction n as [|k IH]; intros z; simpl.
  - reflexivity.
  - rewrite length_app, IH. simpl. lia.
Qed.

Lemma be_to_Z_snoc (bs : bytes) (b : byte) :
  be_to_Z (bs ++ [b]) = be_to_Z bs * 256 + Z_of_byte b.
Proof.
  unfold be_to_Z. rewrite fold_left_app. reflexivity.
Qed.

Lemma be_to_Z_be_bytes (n : nat) (z : Z) :
  be_to_Z (be_bytes n z) = z mod 256 ^ Z.of_nat n.
Proof.
  revert z. induction n as [|k IH]; intros z.
  - simpl. rewrite Z.mod_1_r. reflexivity.
  - cbn [be_bytes]. rewrite be_to_Z_snoc, IH, Z_of_byte_of_Z.
    rewrite Nat2Z.inj_succ, Z.pow_succ_r by lia.
    rewrite (Z.rem_mul_r z 256 (256 ^ Z.of_nat k)) by lia. lia.
Qed.


Lemma bytes_eqb_eq (a b : bytes) : bytes_eqb a b = true <-> a = b.
Proof.
  unfold bytes_eqb. destruct (list_eq_dec Byte.byte_eq_dec a b); split; congruence.
Qed.

Lemma bytes_eqb_refl (a : bytes) : bytes_eqb a a = true.
Proof. apply bytes_eqb_eq. reflexivity. Qed.

Lemma len_app (a b : bytes) : len (a ++ b) = len a + len b.
Proof. unfold len. rewrite length_app. lia. Qed.

Lemma len_nonneg (a : bytes) : 0 <= len a.
Proof. unfold len. lia. Qed.

Lemma len_word (z : Z) : len (Abi.word z) = 32.
Proof. unfold len, Abi.word. rewrite length_be_bytes. reflexivity. Qed.

Lemma len_zeros (n : Z) : 0 <= n -> len (Abi.zeros n) = n.
Proof. intros H. unfold len, Abi.zeros. rewrite repeat_length. lia. Qed.

Lemma all_zero_zeros (n : Z) : all_zero (Abi.zeros n) = true.
Proof.
  unfold all_zero, Abi.zeros. induction (Z.to_nat n) as [|k IH]; simpl; auto.
Qed.

Lemma pad32_range (n : Z) : 0 <= pad32 n < 32.
Proof. unfold pad32. apply Z.mod_pos_bound. lia. Qed.

Lemma word_value (z : Z) : 0 <= z < 2 ^ 256 -> be_to_Z (Abi.word z) = z.
Proof.
  intros H. unfold Abi.word. rewrite be_to_Z_be_bytes.
  change (256 ^ Z.of_nat 32) with (2 ^ 256). apply Z.mod_small. exact H.
Qed.

(** ** Slices of a sequence of pieces *)

Lemma slice_inside (pre x post : bytes) (off n : Z) :
  off = len pre -> n = len x -> slice off n (pre ++ x ++ post) = Some x.
Proof.
  intros -> ->. unfold slice, len.
  rewrite !length_app.
  replace ((0 <=? Z.of_nat (List.length pre)) && (0 <=? Z.of_nat (List.length x))
           && (Z.of_nat (List.length pre) + Z.of_nat (List.length x)
               <=? Z.of_nat (List.length pre + (List.length x + List.length post))))
    with true
    by (symmetry; rewrite !andb_true_iff, !Z.leb_le; lia).
  rewrite !Nat2Z.id.
  rewrite skipn_app, skipn_all, Nat.sub_diag. simpl.
  rewrite firstn_app, firstn_all, Nat.sub_diag. simpl.
  rewrite app_nil_r. reflexivity.
Qed.

Lemma concat_split (ps : list bytes) (i : nat) (x : bytes) :
  nth_error ps i = Some x ->
  List.concat ps = List.concat (firstn i ps) ++ x ++ List.concat (skipn (S i) ps).
Proof.
  revert i. induction ps as [|p ps IH]; intros [|i] H; simpl in *; try discriminate.
  - injection H as ->. reflexivity.
  - rewrite (IH i H) at 1. rewrite app_assoc. reflexivity.
Qed.

Lemma slice_piece (ps : list bytes) (i : nat) (x : bytes) (off n : Z) :
  nth_error ps i = Some x ->
  off = len (List.concat (firstn i ps)) ->
  n = len x ->
  slice off n (List.concat ps) = Some x.
Proof.
  intros Hi Hoff Hn. rewrite (concat_split ps i x Hi).
  apply slice_inside; assumption.
Qed.

Lemma read_word_piece (ps : list bytes) (i : nat) (z off : Z) :
  nth_error ps i = Some (Abi.word z) ->
  off = len (List.concat (firstn i ps)) ->
  0 <= z < 2 ^ 256 ->
  Abi.read_word off (List.concat ps) = Some z.
Proof.
  intros Hi Hoff Hz. unfold Abi.read_word.
  rewrite (slice_piece ps i (Abi.word z) off 32 Hi Hoff) by (rewrite len_word; reflexivity).
  simpl. rewrite word_value by exact Hz. reflexivity.
Qed.


(** ** The codec on bytes *)

Lemma uint_ok_range (bits z : Z) : uint_ok bits z = true -> 0 <= z < 2 ^ bits.
Proof.
  unfold uint_ok. rewrite andb_true_iff, Z.leb_le, Z.ltb_lt. tauto.
Qed.

Lemma dyn_size_range (bs : bytes) : 32 <= dyn_size bs /\ len bs < dyn_size bs.
Proof.
  unfold dyn_size. pose proof (pad32_range (len bs)). pose proof (len_nonneg bs). lia.
Qed.

(** Lengths of the pieces, for the offset computations. *)
Ltac piece_lengths :=
  cbn [firstn List.concat];
  rewrite ?len_app, ?len_word, ?len_zeros by (try apply pad32_range; lia);
  change (len []) with 0;
  unfold dyn_size in *;
  lia.

Ltac word_at i :=
  erewrite (read_word_piece _ i);
  [ cbn [Abi.bind] | reflexivity | piece_lengths | unfold dyn_size in *; lia ].

Ltac piece_at i :=
  erewrite (slice_piece _ i);
  [ cbn [Abi.bind] | reflexivity | piece_lengths | piece_lengths ].

Lemma read_address_piece (ps : list bytes) (i : nat) (a : Address) (off : Z) :
  nth_error ps i = Some (Abi.zeros 12 ++ a) ->
  off = len (List.concat (firstn i ps)) ->
  len a = 20 ->
  Abi.read_address off (List.concat ps) = Some a.
Proof.
  intros Hi Hoff Ha. unfold Abi.read_address.
  rewrite (slice_piece ps i (Abi.zeros 12 ++ a) off 32 Hi Hoff)
    by (rewrite len_app, len_zeros, Ha by lia; reflexivity).
  reflexivity.
Qed.

Lemma dec_args_enc_args (c : TransferCall) :
  wf_call c = true ->
  Abi.dec_args (List.concat (Abi.enc_args c)) = Some c.
Proof.
  destruct c as [[eid rcpt amount minAmount opts msg cmd] [nf lf] refund].
  unfold wf_call, wf_sendParam, wf_fee, sendParam_size. cbn [sendParam fee refundAddress
    dstEid to amountLD minAmountLD extraOptions composeMsg oftCmd nativeFee lzTokenFee].
  rewrite !andb_true_iff, !Z.eqb_eq, Z.ltb_lt.
  intros [[[[[[Heid Hrcpt] Hamount] Hmin] Hsize] [Hnf Hlf]] Hrefund].
  apply uint_ok_range in Heid, Hamount, Hmin, Hnf, Hlf.
  pose proof (dyn_size_range opts) as Ho.
  pose proof (dyn_size_range msg) as Hm.
  pose proof (dyn_size_range cmd) as Hc.
  pose proof (pad32_range (len opts)) as Hpo.
  pose proof (pad32_range (len msg)) as Hpm.
  pose proof (pad32_range (len cmd)) as Hpc.
  pose proof (len_nonneg opts) as Hlo.
  pose proof (len_nonneg msg) as Hlm.
  pose proof (len_nonneg cmd) as Hlc.
  unfold Abi.enc_args, Abi.enc_sendParam, Abi.enc_dyn.
  cbn [sendParam fee refundAddress dstEid to amountLD minAmountLD extraOptions
       composeMsg oftCmd nativeFee lzTokenFee app].
  unfold Abi.dec_args.
  word_at 0%nat. word_at 1%nat. word_at 2%nat.
  erewrite (read_address_piece _ 3%nat);
    [ cbn [Abi.bind] | reflexivity | piece_lengths | assumption ].
  unfold Abi.dec_sendParam, Abi.read_uint.
  word_at 4%nat.
  replace (eid <? 2 ^ 32) with true by (symmetry; apply Z.ltb_lt; lia).
  cbn [Abi.guard Abi.bind].
  piece_at 5%nat.
  word_at 6%nat. word_at 7%nat. word_at 8%nat. word_at 9%nat. word_at 10%nat.
  unfold Abi.read_dyn.
  word_at 11%nat. piece_at 12%nat. piece_at 13%nat.
  rewrite all_zero_zeros. cbn [Abi.guard Abi.bind].
  word_at 14%nat. piece_at 15%nat. piece_at 16%nat.
  rewrite all_zero_zeros. cbn [Abi.guard Abi.bind].
  word_at 17%nat. piece_at 18%nat. piece_at 19%nat.
  rewrite all_zero_zeros. cbn [Abi.guard Abi.bind].
  reflexivity.
Qed.

Lemma decode_encode (c : TransferCall) :
  wf_call c = true -> Abi.decode (Abi.encode c) = inr c.
Proof.
  intros Hwf. unfold Abi.decode, Abi.encode.
  change (firstn 4 (Abi.send_selector ++ List.concat (Abi.enc_args c)))
    with Abi.send_selector.
  change (skipn 4 (Abi.send_selector ++ List.concat (Abi.enc_args c)))
    with (List.concat (Abi.enc_args c)).
  rewrite bytes_eqb_refl, dec_args_enc_args by exact Hwf. reflexivity.
Qed.

Lemma decode_selector_mismatch (d : bytes) :
  firstn 4 d <> Abi.send_selector -> Abi.decode d = inl SelectorMismatch.
Proof.
  intros Hsel. unfold Abi.decode.
  destruct (bytes_eqb (firstn 4 d) Abi.send_selector) eqn:E.
  - apply bytes_eqb_eq in E. contradiction.
  - reflexivity.
Qed.

(** What the decoder returns is well formed, as long as the call data is
    short enough for its offsets to fit a word. *)





(** ** Hexadecimal text *)

Lemma hex_byte (b : byte) :
  match Hex.value (Hex.digit (Byte.to_N b / 16)),
        Hex.value (Hex.digit (Byte.to_N b mod 16)) with
  | Some h, Some l => Byte.of_N (16 * h + l)
  | _, _ => None
  end = Some b.
Proof. destruct b; reflexivity. Qed.

Lemma to_bytes_of_bytes (bs : bytes) : Hex.to_bytes (Hex.of_bytes bs) = Some bs.
Proof.
  induction bs as [|b bs IH]; [reflexivity|].
  cbn [Hex.of_bytes Hex.to_bytes]. rewrite IH.
  pose proof (hex_byte b) as Hb.
  destruct (Hex.value (Hex.digit (Byte.to_N b / 16))) as [h|]; [|discriminate].
  destruct (Hex.value (Hex.digit (Byte.to_N b mod 16))) as [l|]; [|discriminate].
  rewrite Hb. reflexivity.
Qed.

Lemma hexToBytes_bytesToHex (bs : bytes) :
  Hex.hexToBytes (Hex.bytesToHex bs) = Some bs.
Proof. unfold Hex.hexToBytes, Hex.bytesToHex. apply to_bytes_of_bytes. Qed.



(** ** The codec on call data *)




(** C1. Decoding the encoding of a well-formed call gives the call back,
    field for field: integers up to their maximum, byte strings of any
    length, the empty one included. *)
Theorem round_trip (c : TransferCall) :
  wf_call c = true ->
  decodeStargateCalldata viem
    (encodeStargateCalldata viem (sendParam c) (fee c) (refundAddress c))
  = inr c.
Proof.
  intros Hwf. unfold decodeStargateCalldata, encodeStargateCalldata.
  cbn [decodeFunctionData encodeFunctionData viem].
  rewrite hexToBytes_bytesToHex.
  replace {| sendParam := sendParam c; fee := fee c; refundAddress := refundAddress c |}
    with c by (destruct c; reflexivity).
  rewrite (decode_encode c Hwf).
  destruct c; reflexivity.
Qed.

Lemma round_trip_witness :
  wf_call extreme_call = true /\
  decodeStargateCalldata viem
    (encodeStargateCalldata viem (sendParam extreme_call) (fee extreme_call)
       (refundAddress extreme_call))
  = inr extreme_call.
Proof.
  split; [vm_compute; reflexivity | apply (round_trip extreme_call); vm_compute; reflexivity].
Defined.

(** C9. Call data whose first four bytes are not the selector of [send]
    is rejected with the selector error; no call is returned. *)
Theorem wrong_selector_rejected (calldata : string) (d : bytes) :
  Hex.hexToBytes calldata = Some d ->
  firstn 4 d <> Abi.send_selector ->
  decodeStargateCalldata viem calldata = inl (DecodeFailed SelectorMismatch).
Proof.
  intros Hhex Hsel. unfold decodeStargateCalldata.
  cbn [decodeFunctionData viem]. rewrite Hhex.
  rewrite decode_selector_mismatch by exact Hsel. reflexivity.
Qed.

Lemma wrong_selector_rejected_witness :
  decodeStargateCalldata viem "0x095ea7b3aa" = inl (DecodeFailed SelectorMismatch).
Proof.
  apply (wrong_selector_rejected "0x095ea7b3aa" [x09; x5e; xa7; xb3; xaa]).
  - reflexivity.
  - discriminate.
Defined.

(** ** The step scan *)

Lemma truthy_false (s : string) : truthy s = false -> s = "".
Proof.
  unfold truthy. intros H. apply negb_false_iff in H.
  apply String.eqb_eq in H. exact H.
Qed.

Lemma approve_not_send (step : Step) :
  has_selector approve_selector_hex step = true ->
  has_selector send_selector_hex step = false.
Proof.
  unfold has_selector. intros H. apply String.eqb_eq in H. rewrite H. reflexivity.
Qed.

Lemma scan_step_cases (acc : Scan) (i : nat) (step : Step) :
  scan_step acc i step =
  if has_selector approve_selector_hex step then
    {| approvalStep := Some step; sendStep := sendStep acc;
       sendStepIndex := sendStepIndex acc |}
  else if has_selector send_selector_hex step then
    {| approvalStep := approvalStep acc; sendStep := Some step;
       sendStepIndex := Z.of_nat i |}
  else acc.
Proof.
  unfold scan_step, has_selector.
  destruct (truthy (Transaction.data (transaction step))) eqn:E; [reflexivity|].
  apply truthy_false in E. rewrite E. reflexivity.
Qed.

Lemma nth_error_Some_lt (l : list Step) (j : nat) (x : Step) :
  nth_error l j = Some x -> (j < List.length l)%nat.
Proof. intros H. apply nth_error_Some. congruence. Qed.

Lemma nth_error_snoc (l : list Step) (step x : Step) (j : nat) :
  nth_error (l ++ [step]) j = Some x ->
  nth_error l j = Some x \/ (j = List.length l /\ x = step).
Proof.
  intros H. destruct (Nat.lt_ge_cases j (List.length l)) as [Hlt|Hge].
  - left. rewrite nth_error_app1 in H by exact Hlt. exact H.
  - right. rewrite nth_error_app2 in H by exact Hge.
    destruct (j - List.length l)%nat as [|k] eqn:E.
    + injection H as <-. split; [lia|reflexivity].
    + destruct k; discriminate H.
Qed.

Lemma last_match_hit (p : Step -> bool) (seen : list Step) (step : Step) :
  p step = true -> last_match p (seen ++ [step]) (List.length seen) step.
Proof.
  intros Hp. repeat split.
  - rewrite nth_error_app2, Nat.sub_diag by lia. reflexivity.
  - exact Hp.
  - intros j later Hj H. apply nth_error_snoc in H. destruct H as [H|[H _]].
    + apply nth_error_Some_lt in H. lia.
    + lia.
Qed.

Lemma last_match_miss (p : Step -> bool) (seen : list Step) (step : Step)
    (i : nat) (x : Step) :
  p step = false -> last_match p seen i x -> last_match p (seen ++ [step]) i x.
Proof.
  intros Hp (Hi & Hx & Hlater). repeat split.
  - rewrite nth_error_app1 by (apply nth_error_Some_lt with (1 := Hi)). exact Hi.
  - exact Hx.
  - intros j later Hj H. apply nth_error_snoc in H. destruct H as [H|[_ ->]].
    + exact (Hlater j later Hj H).
    + exact Hp.
Qed.

Lemma no_match_miss (p : Step -> bool) (seen : list Step) (step : Step) :
  p step = false -> no_match p seen -> no_match p (seen ++ [step]).
Proof.
  intros Hp Hno x Hin. apply in_app_or in Hin. destruct Hin as [Hin|[<-|[]]].
  - exact (Hno x Hin).
  - exact Hp.
Qed.

Lemma scan_inv_step (seen : list Step) (acc : Scan) (step : Step) :
  scan_inv seen acc ->
  scan_inv (seen ++ [step]) (scan_step acc (List.length seen) step).
Proof.
  intros [Ha Hs]. rewrite scan_step_cases.
  destruct (has_selector approve_selector_hex step) eqn:Ea.
  - pose proof (approve_not_send step Ea) as Es. split; cbn.
    + exists (List.length seen). apply last_match_hit. exact Ea.
    + destruct (sendStep acc) as [t|].
      * destruct Hs as (i & Hi & Hm). exists i. split; [exact Hi|].
        apply last_match_miss; assumption.
      * destruct Hs as [Hi Hno]. split; [exact Hi|]. apply no_match_miss; assumption.
  - destruct (has_selector send_selector_hex step) eqn:Es.
    + split; cbn.
      * destruct (approvalStep acc) as [a|].
        -- destruct Ha as (i & Hm). exists i. apply last_match_miss; assumption.
        -- apply no_match_miss; assumption.
      * exists (List.length seen). split; [reflexivity|].
        apply last_match_hit. exact Es.
    + split.
      * destruct (approvalStep acc) as [a|].
        -- destruct Ha as (i & Hm). exists i. apply last_match_miss; assumption.
        -- apply no_match_miss; assumption.
      * destruct (sendStep acc) as [t|].
        -- destruct Hs as (i & Hi & Hm). exists i. split; [exact Hi|].
           apply last_match_miss; assumption.
        -- destruct Hs as [Hi Hno]. split; [exact Hi|]. apply no_match_miss; assumption.
Qed.

Lemma scan_inv_from (l seen : list Step) (acc : Scan) :
  scan_inv seen acc ->
  scan_inv (seen ++ l) (scan_from (List.length seen) l acc).
Proof.
  revert seen acc. induction l as [|step rest IH]; intros seen acc Hinv.
  - rewrite app_nil_r. exact Hinv.
  - cbn [scan_from].
    replace (seen ++ step :: rest) with ((seen ++ [step]) ++ rest)
      by (rewrite <- app_assoc; reflexivity).
    replace (S (List.length seen)) with (List.length (seen ++ [step]))
      by (rewrite length_app; cbn; lia).
    apply IH. apply scan_inv_step. exact Hinv.
Qed.

Lemma classify_inv (l : list Step) : scan_inv l (classify l).
Proof.
  unfold classify. apply (scan_inv_from l [] scan_start).
  split; cbn; [|split; [reflexivity|]]; intros x [].
Qed.

(** C4. On [approve; other; transfer; transfer] the first step with the
    send selector is the one at index 2, and the scan keeps the one at
    index 3; and of two approval steps it keeps the second. *)
Lemma first_match_counterexample :
  let l := [step_A; step_B; step_C; step_D] in
  first_match (has_selector send_selector_hex) l 2 step_C /\
  sendStep (classify l) = Some step_D /\
  sendStepIndex (classify l) = 3 /\
  ~ (approvalStep (classify l) = Some step_A /\
     sendStep (classify l) = Some step_C /\
     sendStepIndex (classify l) = 2) /\
  first_match (has_selector approve_selector_hex) [step_A; step_E] 0 step_A /\
  approvalStep (classify [step_A; step_E]) = Some step_E.
Proof.
  cbv zeta. split; [|split; [|split; [|split; [|split]]]].
  - split; [reflexivity|]. split; [vm_compute; reflexivity|].
    intros [|[|j]] earlier Hj H; [| |lia]; injection H as <-; reflexivity.
  - vm_compute. reflexivity.
  - vm_compute. reflexivity.
  - intros (_ & _ & H). vm_compute in H. discriminate H.
  - split; [reflexivity|]. split; [reflexivity|]. intros j earlier Hj. lia.
  - vm_compute. reflexivity.
Qed.

(** C4, as the code has it. The scan keeps the last match of either kind:
    the approval is the last step with the approve selector, the transfer
    step and its index are the last step with the send selector, and a
    variable stays empty (the index at -1) exactly when no step matches. *)
Theorem classify_last_match (l : list Step) :
  match approvalStep (classify l) with
  | Some a => exists i, last_match (has_selector approve_selector_hex) l i a
  | None => no_match (has_selector approve_selector_hex) l
  end /\
  match sendStep (classify l) with
  | Some t =>
      exists i, sendStepIndex (classify l) = Z.of_nat i /\
                last_match (has_selector send_selector_hex) l i t
  | None =>
      sendStepIndex (classify l) = -1 /\
      no_match (has_selector send_selector_hex) l
  end.
Proof. exact (classify_inv l). Qed.

(** ** The monad *)

Section Runs.

Context {W : Type}.
Variable env : Env W.
Variable lib : Viem.

Lemma attempted_app (a b : list Event) :
  attempted (a ++ b) = attempted a ++ attempted b.
Proof.
  induction a as [|e a IH]; [reflexivity|].
  destruct e; cbn; rewrite ?IH; reflexivity.
Qed.

Lemma submitted_app (site : Site) (a b : list Event) :
  submitted site (a ++ b) = submitted site a ++ submitted site b.
Proof.
  induction a as [|e a IH]; [reflexivity|].
  destruct e; cbn; rewrite ?IH; try reflexivity.
  destruct site, site0; cbn; rewrite ?IH; reflexivity.
Qed.

Lemma step_logs_quiet (site : Site) (l : list Step) (i : nat) :
  attempted (step_logs i l) = [] /\ submitted site (step_logs i l) = [].
Proof.
  revert i. induction l as [|step rest IH]; intros i; [split; reflexivity|].
  cbn [step_logs]. rewrite attempted_app, submitted_app.
  destruct (IH (S i)) as [-> ->].
  destruct (truthy _); split; reflexivity.
Qed.

(** The guarded submission, by what the ledger answers. *)

Lemma submitTransfer_send_fails (req : TxRequest) (s : State W) msg w :
  sendTransaction env req (world s) = (inl msg, w) ->
  submitTransfer env req s =
  (inr Continue,
   after s w [SendTransaction AtTransfer req; LogTransactionFailed (External msg)]).
Proof.
  intros H. unfold submitTransfer, try_catch, mbind, call, emit, ret, after.
  rewrite H. cbn. rewrite <- app_assoc. reflexivity.
Qed.

Lemma submitTransfer_wait_fails (req : TxRequest) (s : State W) h w msg w' :
  sendTransaction env req (world s) = (inr h, w) ->
  waitForTransactionReceipt env h w = (inl msg, w') ->
  submitTransfer env req s =
  (inr Continue,
   after s w' [SendTransaction AtTransfer req;
               WaitForTransactionReceipt AtTransfer h;
               LogTransactionFailed (External msg)]).
Proof.
  intros H1 H2. unfold submitTransfer, try_catch, mbind, call, emit, ret, after.
  rewrite H1. cbn. rewrite H2. cbn. rewrite <- !app_assoc. reflexivity.
Qed.

Lemma submitTransfer_confirmed (req : TxRequest) (s : State W) h w st w' :
  sendTransaction env req (world s) = (inr h, w) ->
  waitForTransactionReceipt env h w = (inr st, w') ->
  submitTransfer env req s =
  (inr Break,
   after s w' [SendTransaction AtTransfer req;
               WaitForTransactionReceipt AtTransfer h;
               LogReceipt st]).
Proof.
  intros H1 H2. unfold submitTransfer, try_catch, mbind, call, emit, ret, after.
  rewrite H1. cbn. rewrite H2. cbn. rewrite <- !app_assoc. reflexivity.
Qed.

(** The guarded submission never throws, and submits [req] and nothing
    else. *)
Lemma submitTransfer_frame (req : TxRequest) (s : State W) :
  exists control w es,
    submitTransfer env req s = (inr control, after s w es) /\
    attempted es = [] /\
    submitted AtApproval es = [] /\
    submitted AtTransfer es = [req].
Proof.
  destruct (sendTransaction env req (world s)) as [[msg|h] w] eqn:H1.
  - eexists _, _, _. split; [apply (submitTransfer_send_fails _ _ _ _ H1)|].
    repeat split.
  - destruct (waitForTransactionReceipt env h w) as [[msg|st] w'] eqn:H2.
    + eexists _, _, _. split; [apply (submitTransfer_wait_fails _ _ _ _ _ _ H1 H2)|].
      repeat split.
    + eexists _, _, _. split; [apply (submitTransfer_confirmed _ _ _ _ _ _ H1 H2)|].
      repeat split.
Qed.

(** The approval. *)

Lemma handleApproval_none (s : State W) :
  handleApproval env None s = (inr tt, s).
Proof. reflexivity. Qed.

Lemma handleApproval_send_fails (a : Step) (s : State W) msg w :
  sendTransaction env (approvalRequest a) (world s) = (inl msg, w) ->
  handleApproval env (Some a) s =
  (inl (External msg), after s w [SendTransaction AtApproval (approvalRequest a)]).
Proof.
  intros H. unfold handleApproval, mbind, call, emit, after.
  fold (approvalRequest a). rewrite H. reflexivity.
Qed.

Lemma handleApproval_wait_fails (a : Step) (s : State W) h w msg w' :
  sendTransaction env (approvalRequest a) (world s) = (inr h, w) ->
  waitForTransactionReceipt env h w = (inl msg, w') ->
  handleApproval env (Some a) s =
  (inl (External msg),
   after s w' [SendTransaction AtApproval (approvalRequest a);
               WaitForTransactionReceipt AtApproval h]).
Proof.
  intros H1 H2. unfold handleApproval, mbind, call, emit, after.
  fold (approvalRequest a). rewrite H1. cbn. rewrite H2. cbn.
  rewrite <- !app_assoc. reflexivity.
Qed.

Lemma handleApproval_confirmed (a : Step) (s : State W) h w st w' :
  sendTransaction env (approvalRequest a) (world s) = (inr h, w) ->
  waitForTransactionReceipt env h w = (inr st, w') ->
  handleApproval env (Some a) s =
  (inr tt,
   after s w' [SendTransaction AtApproval (approvalRequest a);
               WaitForTransactionReceipt AtApproval h;
               LogApprovalConfirmed]).
Proof.
  intros H1 H2. unfold handleApproval, mbind, call, emit, after.
  fold (approvalRequest a). rewrite H1. cbn. rewrite H2. cbn.
  rewrite <- !app_assoc. reflexivity.
Qed.

Lemma handleApproval_frame (found : option Step) (s : State W) :
  exists r w es,
    handleApproval env found s = (r, after s w es) /\
    attempted es = [] /\
    submitted AtTransfer es = [] /\
    submitted AtApproval es =
      match found with Some a => [approvalRequest a] | None => [] end.
Proof.
  destruct found as [a|].
  - destruct (sendTransaction env (approvalRequest a) (world s)) as [[msg|h] w] eqn:H1.
    + eexists _, _, _. split; [apply (handleApproval_send_fails _ _ _ _ H1)|].
      repeat split.
    + destruct (waitForTransactionReceipt env h w) as [[msg|st] w'] eqn:H2.
      * eexists _, _, _. split; [apply (handleApproval_wait_fails _ _ _ _ _ _ H1 H2)|].
        repeat split.
      * eexists _, _, _. split; [apply (handleApproval_confirmed _ _ _ _ _ _ H1 H2)|].
        repeat split.
  - exists (inr tt), (world s), []. unfold after. rewrite app_nil_r.
    destruct s; repeat split.
Qed.

End Runs.

Section Routes.

Context {W : Type}.
Variable env : Env W.
Variable lib : Viem.

(** The part of a route behind the scan, case by case. *)

Lemma handleSend_decode_fails (step : Step) (index : Z) (s : State W) cause :
  decodeFunctionData lib (Transaction.data (transaction step)) = inl cause ->
  handleSend env lib step index s =
  (inl (DecodeFailed cause), after s (world s) [LogUsingStep index]).
Proof.
  intros H. unfold handleSend, mbind, emit, lift, throw, after, decodeStargateCalldata.
  rewrite H. reflexivity.
Qed.

Lemma handleSend_verify_fails (step : Step) (index : Z) (s : State W) decoded e :
  decodeStargateCalldata lib (Transaction.data (transaction step)) = inr decoded ->
  decodeStargateCalldata lib (reencoded lib decoded) = inl e ->
  handleSend env lib step index s =
  (inl e, after s (world s) ([LogUsingStep index] ++ same_refund_warning decoded)).
Proof.
  intros H1 H2. unfold handleSend, mbind, emit, lift, throw, ret, after.
  rewrite H1. cbn [world trace]. fold (reencoded lib decoded).
  unfold same_refund_warning.
  destruct (bytes_eqb (refundAddress decoded) customRefundAddress);
    cbn [world trace]; rewrite H2; cbn; rewrite <- ?app_assoc; reflexivity.
Qed.

Lemma handleSend_submits (step : Step) (index : Z) (s : State W)
    decoded verifyDecoded v :
  decodeStargateCalldata lib (Transaction.data (transaction step)) = inr decoded ->
  decodeStargateCalldata lib (reencoded lib decoded) = inr verifyDecoded ->
  BigInt env (Transaction.value (transaction step)) = Some v ->
  handleSend env lib step index s =
  submitTransfer env (transferRequest step v (reencoded lib decoded))
    (after s (world s) (override_logs index decoded verifyDecoded)).
Proof.
  intros H1 H2 H3. unfold handleSend, mbind, emit, lift, throw, ret, after.
  rewrite H1. cbn [world trace]. fold (reencoded lib decoded).
  unfold override_logs, same_refund_warning.
  destruct (bytes_eqb (refundAddress decoded) customRefundAddress);
    cbn [world trace]; rewrite H2; cbn [world trace]; rewrite H3;
    cbn [world trace app]; rewrite <- ?app_assoc; reflexivity.
Qed.

Lemma handleSend_value_fails (step : Step) (index : Z) (s : State W)
    decoded verifyDecoded :
  decodeStargateCalldata lib (Transaction.data (transaction step)) = inr decoded ->
  decodeStargateCalldata lib (reencoded lib decoded) = inr verifyDecoded ->
  BigInt env (Transaction.value (transaction step)) = None ->
  handleSend env lib step index s =
  (inl (BigIntSyntaxError (Transaction.value (transaction step))),
   after s (world s) (override_logs index decoded verifyDecoded)).
Proof.
  intros H1 H2 H3. unfold handleSend, mbind, emit, lift, throw, ret, after.
  rewrite H1. cbn [world trace]. fold (reencoded lib decoded).
  unfold override_logs, same_refund_warning.
  destruct (bytes_eqb (refundAddress decoded) customRefundAddress);
    cbn [world trace]; rewrite H2; cbn [world trace]; rewrite H3;
    cbn [world trace app]; rewrite <- ?app_assoc; reflexivity.
Qed.

Lemma after_after (s : State W) w es w' es' :
  after (after s w es) w' es' = after s w' (es ++ es').
Proof. unfold after. cbn. rewrite app_assoc. reflexivity. Qed.

Lemma handleSend_frame (step : Step) (index : Z) (s : State W) :
  exists r w es,
    handleSend env lib step index s = (r, after s w es) /\
    attempted es = [] /\
    submitted AtApproval es = [] /\
    forall req, In req (submitted AtTransfer es) -> derived_from lib step req.
Proof.
  destruct (decodeFunctionData lib (Transaction.data (transaction step)))
    as [cause|d0] eqn:H0.
  { eexists _, _, _. split; [apply (handleSend_decode_fails _ _ _ _ H0)|].
    repeat split. intros req []. }
  assert (H1 : exists decoded,
    decodeStargateCalldata lib (Transaction.data (transaction step)) = inr decoded).
  { unfold decodeStargateCalldata. rewrite H0. eexists. reflexivity. }
  destruct H1 as [decoded H1].
  assert (Hw : forall site, attempted (same_refund_warning decoded) = [] /\
                            submitted site (same_refund_warning decoded) = []).
  { intros site. unfold same_refund_warning.
    destruct (bytes_eqb _ _); split; reflexivity. }
  destruct (decodeStargateCalldata lib (reencoded lib decoded)) as [e|verify] eqn:H2.
  { eexists _, _, _. split; [apply (handleSend_verify_fails _ _ _ _ _ H1 H2)|].
    cbn [app attempted submitted].
    destruct (Hw AtApproval) as [-> ->]. destruct (Hw AtTransfer) as [_ ->].
    repeat split. intros req []. }
  assert (Ho : forall site, attempted (override_logs index decoded verify) = [] /\
                            submitted site (override_logs index decoded verify) = []).
  { intros site. unfold override_logs.
    rewrite !attempted_app, !submitted_app. destruct (Hw site) as [-> ->].
    split; reflexivity. }
  destruct (BigInt env (Transaction.value (transaction step))) as [v|] eqn:H3.
  - rewrite (handleSend_submits _ _ _ _ _ _ H1 H2 H3).
    destruct (submitTransfer_frame env
                (transferRequest step v (reencoded lib decoded))
                (after s (world s) (override_logs index decoded verify)))
      as (control & w & es & -> & Hat & Hap & Htr).
    exists (inr control), w, (override_logs index decoded verify ++ es).
    rewrite after_after, attempted_app, !submitted_app, Hat, Hap, Htr.
    destruct (Ho AtApproval) as [-> ->]. destruct (Ho AtTransfer) as [_ ->].
    repeat split. intros req [<-|[]]. exists decoded, verify, v. repeat split; assumption.
  - eexists _, _, _. split; [apply (handleSend_value_fails _ _ _ _ _ H1 H2 H3)|].
    destruct (Ho AtApproval) as [-> ->]. destruct (Ho AtTransfer) as [_ ->].
    repeat split. intros req [].
Qed.

(** The loop body starts from the logged state. *)
Lemma processRoute_logged (quote : StargateQuote) (s : State W) :
  processRoute env lib quote s =
  match handleApproval env (approvalStep (classify (steps quote))) (logged quote s) with
  | (inr _, s1) =>
      match sendStep (classify (steps quote)) with
      | None =>
          (inr Continue,
           after s1 (world s1) [WarnNoSend (step_prefixes 0 (steps quote))])
      | Some step => handleSend env lib step (sendStepIndex (classify (steps quote))) s1
      end
  | (inl e, s1) => (inl e, s1)
  end.
Proof.
  unfold processRoute, mbind, emit, emit_all, logged. cbn [world trace].
  destruct (handleApproval env _ _) as [[e|[]] s1]; [reflexivity|].
  destruct (sendStep (classify (steps quote))); reflexivity.
Qed.

Lemma logged_after (quote : StargateQuote) (s : State W) :
  logged quote s =
  after s (world s)
    (LogRoute (route quote) (List.length (steps quote)) :: step_logs 0 (steps quote)).
Proof. unfold logged, after. rewrite <- app_assoc. reflexivity. Qed.

(** One route: it is logged once, and what it submits as a transfer is
    derived from its transfer step. *)
Lemma processRoute_frame (quote : StargateQuote) (s : State W) :
  exists r w es,
    processRoute env lib quote s = (r, after s w es) /\
    attempted es = [route quote] /\
    submitted AtApproval es =
      match approvalStep (classify (steps quote)) with
      | Some a => [approvalRequest a]
      | None => []
      end /\
    forall req, In req (submitted AtTransfer es) ->
      exists step, sendStep (classify (steps quote)) = Some step /\
                   derived_from lib step req.
Proof.
  rewrite processRoute_logged, logged_after.
  destruct (step_logs_quiet AtApproval (steps quote) 0) as [Hl1 Hl2].
  destruct (step_logs_quiet AtTransfer (steps quote) 0) as [_ Hl3].
  destruct (handleApproval_frame env (approvalStep (classify (steps quote)))
              (after s (world s)
                 (LogRoute (route quote) (List.length (steps quote))
                  :: step_logs 0 (steps quote))))
    as (r & w & es & -> & Hat & Htr & Hap).
  rewrite after_after.
  destruct r as [e|[]].
  { eexists _, _, _. split; [reflexivity|].
    cbn [app attempted submitted].
    rewrite attempted_app, !submitted_app, Hl1, Hl2, Hl3, Hat, Htr, Hap.
    repeat split. intros req []. }
  destruct (sendStep (classify (steps quote))) as [step|] eqn:Hs.
  - destruct (handleSend_frame step (sendStepIndex (classify (steps quote)))
                (after s w
                   ((LogRoute (route quote) (List.length (steps quote))
                     :: step_logs 0 (steps quote)) ++ es)))
      as (r & w' & es' & -> & Hat' & Hap' & Htr').
    rewrite after_after.
    eexists _, _, _. split; [reflexivity|].
    cbn [app attempted submitted].
    rewrite !attempted_app, !submitted_app, Hl1, Hl2, Hl3, Hat, Htr, Hap, Hat', Hap'.
    rewrite !app_nil_r. repeat split.
    intros req Hin. exists step. split; [reflexivity|]. apply Htr'. exact Hin.
  - cbn [world]. rewrite after_after.
    eexists _, _, _. split; [reflexivity|].
    cbn [app attempted submitted].
    rewrite !attempted_app, !submitted_app, Hl1, Hl2, Hl3, Hat, Htr, Hap.
    rewrite !app_nil_r. repeat split. intros req [].
Qed.

(** The loop, by how its first route ends. *)
Lemma forRoutes_cons (quote : StargateQuote) (rest : list StargateQuote) (s : State W) :
  forRoutes env lib (quote :: rest) s =
  match processRoute env lib quote s with
  | (inr Break, s') => (inr tt, s')
  | (inr Continue, s') => forRoutes env lib rest s'
  | (inl e, s') => (inl e, s')
  end.
Proof.
  cbn [forRoutes]. unfold mbind.
  destruct (processRoute env lib quote s) as [[e|[]] s']; reflexivity.
Qed.

(** The routes a run attempts are the first so many of the list, in the
    order of the list. *)
Lemma forRoutes_attempted (qs : list StargateQuote) (s : State W) :
  exists k,
    attempted (trace (snd (forRoutes env lib qs s))) =
    attempted (trace s) ++ firstn k (map route qs).
Proof.
  revert s. induction qs as [|quote rest IH]; intros s.
  - exists 0%nat. cbn. rewrite app_nil_r. reflexivity.
  - rewrite forRoutes_cons.
    destruct (processRoute_frame quote s) as (r & w & es & -> & Hat & _).
    assert (Hone : attempted (trace (after s w es)) = attempted (trace s) ++ [route quote]).
    { unfold after. cbn [trace]. rewrite attempted_app, Hat. reflexivity. }
    destruct r as [e|[]].
    + exists 1%nat. cbn [snd map firstn]. exact Hone.
    + exists 1%nat. cbn [snd map firstn]. exact Hone.
    + destruct (IH (after s w es)) as [k Hk]. exists (S k).
      rewrite Hk, Hone, <- app_assoc. reflexivity.
Qed.

(** An error that leaves the loop ends [main] with exit code 1. *)
Lemma loop_error_aborts (qs : list StargateQuote) (s : State W) e s' :
  forRoutes env lib qs s = (inl e, s') -> run_aborts env lib qs s e s'.
Proof.
  intros H. split; [exact H|].
  intros s0 all sa Hpre Hloop. rewrite H in Hloop.
  unfold main, try_catch, mbind. rewrite Hpre, Hloop. reflexivity.
Qed.

End Routes.

(** ** The orchestration *)


(** X16. The routes attempted are the first so many of the list, in its
    order.  A route that reaches the submission of its transfer goes on to
    the next route when the submission or the wait for the receipt throws,
    the failure being logged; once a receipt has come, whatever its
    status, the loop ends there and the route is the last one attempted. *)
Theorem routes_in_order_until_confirmed {W} (env : Env W) (lib : Viem)
    (quote : StargateQuote) (rest : list StargateQuote) (s : State W)
    (req : TxRequest) (s1 : State W) :
  processRoute env lib quote s = submitTransfer env req s1 ->
  (exists k,
     attempted (trace (snd (forRoutes env lib (quote :: rest) s))) =
     attempted (trace s) ++ firstn k (map route (quote :: rest))) /\
  match sendTransaction env req (world s1) with
  | (inl msg, w) =>
      forRoutes env lib (quote :: rest) s =
      forRoutes env lib rest
        (after s1 w [SendTransaction AtTransfer req;
                     LogTransactionFailed (External msg)])
  | (inr h, w) =>
      match waitForTransactionReceipt env h w with
      | (inl msg, w') =>
          forRoutes env lib (quote :: rest) s =
          forRoutes env lib rest
            (after s1 w' [SendTransaction AtTransfer req;
                          WaitForTransactionReceipt AtTransfer h;
                          LogTransactionFailed (External msg)])
      | (inr st, w') =>
          forRoutes env lib (quote :: rest) s =
          (inr tt, after s1 w' [SendTransaction AtTransfer req;
                                WaitForTransactionReceipt AtTransfer h;
                                LogReceipt st]) /\
          attempted (trace (snd (forRoutes env lib (quote :: rest) s))) =
          attempted (trace s) ++ [route quote]
      end
  end.
Proof.
  intros Hreach. split; [apply forRoutes_attempted|].
  rewrite forRoutes_cons.
  destruct (sendTransaction env req (world s1)) as [[msg|h] w] eqn:H1.
  - rewrite Hreach, (submitTransfer_send_fails env req s1 msg w H1). reflexivity.
  - destruct (waitForTransactionReceipt env h w) as [[msg|st] w'] eqn:H2.
    + rewrite Hreach, (submitTransfer_wait_fails env req s1 h w msg w' H1 H2).
      reflexivity.
    + destruct (processRoute_frame env lib quote s) as (r & w0 & es & Hr & Hat & _).
      rewrite Hr. rewrite Hr in Hreach.
      rewrite (submitTransfer_confirmed env req s1 h w st w' H1 H2) in Hreach.
      pose proof (f_equal fst Hreach) as Hfst.
      pose proof (f_equal snd Hreach) as Hsnd. cbn [fst snd] in Hfst, Hsnd.
      rewrite Hfst, <- Hsnd. split; [reflexivity|].
      cbn [snd after trace]. rewrite attempted_app, Hat. reflexivity.
Qed.

(** C5. On the two sample routes, an approval that cannot be submitted
    ends the run with exit code 1, and the second route is never
    attempted. *)
Lemma approval_failure_counterexample :
  let run := main (scripted two_routes) viem (start [SendFails "rpc down"]) in
  fst run = inr 1 /\
  attempted (trace (snd run)) = ["stargate/taxi"] /\
  ~ In "stargate/bus" (attempted (trace (snd run))).
Proof.
  cbv zeta. repeat split; try (vm_compute; reflexivity).
  intros H. vm_compute in H. destruct H as [H|[]]. discriminate H.
Qed.

(** C5, as the code has it. An error thrown while the approval is
    submitted or awaited is not caught inside the route: it leaves the
    loop, no further route is attempted, and [main] ends with exit
    code 1. *)
Theorem approval_failure_aborts {W} (env : Env W) (lib : Viem)
    (quote : StargateQuote) (rest : list StargateQuote) (s : State W)
    (a : Step) msg (s1 : State W) :
  approvalStep (classify (steps quote)) = Some a ->
  (exists w,
     sendTransaction env (approvalRequest a) (world s) = (inl msg, w) /\
     s1 = after (logged quote s) w [SendTransaction AtApproval (approvalRequest a)])
  \/ (exists h w w',
        sendTransaction env (approvalRequest a) (world s) = (inr h, w) /\
        waitForTransactionReceipt env h w = (inl msg, w') /\
        s1 = after (logged quote s) w'
               [SendTransaction AtApproval (approvalRequest a);
                WaitForTransactionReceipt AtApproval h]) ->
  run_aborts env lib (quote :: rest) s (External msg) s1 /\
  attempted (trace s1) = attempted (trace s) ++ [route quote].
Proof.
  intros Ha Hfail.
  assert (Happ : handleApproval env (Some a) (logged quote s) = (inl (External msg), s1)).
  { destruct Hfail as [(w & H1 & ->)|(h & w & w' & H1 & H2 & ->)].
    - apply handleApproval_send_fails. exact H1.
    - apply handleApproval_wait_fails with (w := w); assumption. }
  split.
  - apply loop_error_aborts. rewrite forRoutes_cons, processRoute_logged, Ha, Happ.
    reflexivity.
  - destruct (step_logs_quiet AtApproval (steps quote) 0) as [Hl _].
    destruct Hfail as [(w & _ & ->)|(h & w & w' & _ & _ & ->)];
      rewrite logged_after, after_after; cbn [after trace];
      rewrite !attempted_app; cbn [attempted]; rewrite Hl, app_nil_r;
      reflexivity.
Qed.





(** C8. When the call data of the transfer step of a route does not
    decode, the error is thrown outside any handler of the route: it
    leaves the loop and [main] ends with exit code 1.  A submission that
    throws, by contrast, only ends the attempt of its route. *)
Theorem decode_failure_aborts {W} (env : Env W) (lib : Viem)
    (quote : StargateQuote) (rest : list StargateQuote) (s s1 : State W)
    (step : Step) (cause : DecodeError) :
  sendStep (classify (steps quote)) = Some step ->
  handleApproval env (approvalStep (classify (steps quote))) (logged quote s)
    = (inr tt, s1) ->
  decodeFunctionData lib (Transaction.data (transaction step)) = inl cause ->
  run_aborts env lib (quote :: rest) s (DecodeFailed cause)
    (after s1 (world s1) [LogUsingStep (sendStepIndex (classify (steps quote)))]) /\
  (forall req s2 msg w,
     sendTransaction env req (world s2) = (inl msg, w) ->
     submitTransfer env req s2 =
     (inr Continue,
      after s2 w [SendTransaction AtTransfer req;
                  LogTransactionFailed (External msg)])).
Proof.
  intros Hs Happ Hdec. split.
  - apply loop_error_aborts.
    rewrite forRoutes_cons, processRoute_logged, Happ, Hs.
    rewrite (handleSend_decode_fails env lib step _ s1 cause Hdec). reflexivity.
  - intros req s2 msg w H. apply submitTransfer_send_fails. exact H.
Qed.


(** ** The statements at sample routes *)


Lemma routes_in_order_until_confirmed_witness :
  let env := scripted two_routes in
  let s := start [Sent "0xh1"; Receipt success; SendFails "network"; Sent "0xh2";
                  Receipt success] in
  let req := transferRequest step_C 7 (reencoded viem (sample_call sample_refund)) in
  let s0 := snd (handleApproval env (Some step_A) (logged taxi s)) in
  let s1 := after s0 (world s0)
              (override_logs 1 (sample_call sample_refund)
                 (sample_call customRefundAddress)) in
  processRoute env viem taxi s = submitTransfer env req s1 /\
  forRoutes env viem [taxi; bus] s =
  forRoutes env viem [bus]
    (after s1 [Sent "0xh2"; Receipt success]
       [SendTransaction AtTransfer req; LogTransactionFailed (External "network")]).
Proof.
  intros env s req s0 s1.
  assert (Hreach : processRoute env viem taxi s = submitTransfer env req s1)
    by (vm_compute; reflexivity).
  split; [exact Hreach|].
  exact (proj2 (routes_in_order_until_confirmed env viem taxi [bus] s req s1 Hreach)).
Defined.

Lemma approval_failure_aborts_witness :
  let env := scripted two_routes in
  let s0 := start [SendFails "rpc down"] in
  let s := snd (prelude env s0) in
  let s1 := after (logged taxi s) []
              [SendTransaction AtApproval (approvalRequest step_A)] in
  approvalStep (classify (steps taxi)) = Some step_A /\
  run_aborts env viem [taxi; bus] s (External "rpc down") s1 /\
  attempted (trace s1) = attempted (trace s) ++ [route taxi] /\
  main env viem s0 = (inr 1, after s1 (world s1) [LogError (External "rpc down")]).
Proof.
  intros env s0 s s1.
  assert (Ha : approvalStep (classify (steps taxi)) = Some step_A)
    by (vm_compute; reflexivity).
  destruct (approval_failure_aborts env viem taxi [bus] s step_A "rpc down" s1 Ha)
    as [Hrun Hat].
  { left. exists []. split; reflexivity. }
  split; [exact Ha|]. split; [exact Hrun|]. split; [exact Hat|].
  apply (proj2 Hrun s0 [taxi; bus] s); reflexivity.
Defined.



Lemma decode_failure_aborts_witness :
  let env := scripted {| quotes := [truncated; bus] |} in
  let s0 := start [Sent "0xh"; Receipt success] in
  let s := snd (prelude env s0) in
  let s' := after (logged truncated s) (world s) [LogUsingStep 0] in
  decodeFunctionData viem (Transaction.data (transaction step_D)) = inl Malformed /\
  run_aborts env viem [truncated; bus] s (DecodeFailed Malformed) s' /\
  main env viem s0 = (inr 1, after s' (world s') [LogError (DecodeFailed Malformed)]).
Proof.
  intros env s0 s s'.
  assert (Hdec : decodeFunctionData viem (Transaction.data (transaction step_D))
                 = inl Malformed) by (vm_compute; reflexivity).
  assert (Hrun : run_aborts env viem [truncated; bus] s (DecodeFailed Malformed) s').
  { refine (proj1 (decode_failure_aborts env viem truncated [bus] s (logged truncated s)
                     step_D Malformed _ _ Hdec)).
    - vm_compute. reflexivity.
    - reflexivity. }
  split; [exact Hdec|]. split; [exact Hrun|].
  apply (proj2 Hrun s0 [truncated; bus] s); reflexivity.
Defined.


(** The scenario of three routes: the first approves and fails at the
    submission of its transfer, the second is confirmed, the third is not
    attempted. *)
Example three_routes_scenario :
  let third := mk_quote "stargate/third" [step_C] in
  let run := main (scripted {| quotes := [taxi; bus; third] |}) viem
               (start [Sent "0xa"; Receipt success; SendFails "network";
                       Sent "0xb"; Receipt success]) in
  fst run = inr 0 /\
  attempted (trace (snd run)) = ["stargate/taxi"; "stargate/bus"] /\
  List.length (submitted AtTransfer (trace (snd run))) = 2%nat /\
  world (snd run) = [].
Proof. cbv zeta. repeat split; vm_compute; reflexivity. Qed.

(** * Further properties of the run *)

Section Shapes.

Context {W : Type}.
Variable env : Env W.
Variable lib : Viem.

Lemma receipts_app (a b : list Event) :
  receipts (a ++ b) = receipts a ++ receipts b.
Proof.
  induction a as [|e a IH]; [reflexivity|].
  destruct e; cbn; rewrite ?IH; reflexivity.
Qed.

Lemma step_logs_no_receipt (l : list Step) (i : nat) :
  receipts (step_logs i l) = [].
Proof.
  revert i. induction l as [|step rest IH]; intros i; [reflexivity|].
  cbn [step_logs]. rewrite receipts_app, IH.
  destruct (truthy _); reflexivity.
Qed.

Lemma after_same (s : State W) : after s (world s) [] = s.
Proof. unfold after. rewrite app_nil_r. destruct s; reflexivity. Qed.

(** The guarded submission: one request, and a receipt logged last
    exactly when the loop is to stop. *)
Lemma submitTransfer_shape (req : TxRequest) (s : State W) :
  exists control w es,
    submitTransfer env req s = (inr control, after s w es) /\
    attempted es = [] /\
    submitted AtApproval es = [] /\
    submitted AtTransfer es = [req] /\
    ((control = Break /\
      exists es0 st, es = es0 ++ [LogReceipt st] /\ receipts es0 = [])
     \/ (control = Continue /\ receipts es = [])).
Proof.
  destruct (sendTransaction env req (world s)) as [[msg|h] w] eqn:H1.
  - eexists _, _, _. split; [apply (submitTransfer_send_fails _ _ _ _ _ H1)|].
    repeat split. right. split; reflexivity.
  - destruct (waitForTransactionReceipt env h w) as [[msg|st] w'] eqn:H2.
    + eexists _, _, _. split; [apply (submitTransfer_wait_fails _ _ _ _ _ _ _ H1 H2)|].
      repeat split. right. split; reflexivity.
    + eexists _, _, _. split; [apply (submitTransfer_confirmed _ _ _ _ _ _ _ H1 H2)|].
      repeat split. left. split; [reflexivity|].
      exists [SendTransaction AtTransfer req; WaitForTransactionReceipt AtTransfer h], st.
      split; reflexivity.
Qed.

Lemma same_refund_warning_quiet (decoded : TransferCall) (site : Site) :
  attempted (same_refund_warning decoded) = [] /\
  submitted site (same_refund_warning decoded) = [] /\
  receipts (same_refund_warning decoded) = [].
Proof.
  unfold same_refund_warning. destruct (bytes_eqb _ _); repeat split.
Qed.

Lemma override_logs_quiet (index : Z) (decoded verify : TransferCall) (site : Site) :
  attempted (override_logs index decoded verify) = [] /\
  submitted site (override_logs index decoded verify) = [] /\
  receipts (override_logs index decoded verify) = [].
Proof.
  unfold override_logs.
  rewrite !attempted_app, !submitted_app, !receipts_app.
  destruct (same_refund_warning_quiet decoded site) as (-> & -> & ->).
  repeat split.
Qed.

(** The part of a route behind the scan: at most one transfer request,
    and a receipt logged last exactly when the loop is to stop. *)
Lemma handleSend_shape (step : Step) (index : Z) (s : State W) :
  exists r w es,
    handleSend env lib step index s = (r, after s w es) /\
    attempted es = [] /\
    submitted AtApproval es = [] /\
    (List.length (submitted AtTransfer es) <= 1)%nat /\
    ((r = inr Break /\
      exists es0 st, es = es0 ++ [LogReceipt st] /\ receipts es0 = [])
     \/ (r <> inr Break /\ receipts es = [])).
Proof.
  destruct (decodeFunctionData lib (Transaction.data (transaction step)))
    as [cause|d0] eqn:H0.
  { eexists _, _, _. split; [apply (handleSend_decode_fails _ _ _ _ _ _ H0)|].
    repeat split; [cbn; lia|]. right. split; [discriminate|reflexivity]. }
  assert (H1 : exists decoded,
    decodeStargateCalldata lib (Transaction.data (transaction step)) = inr decoded).
  { unfold decodeStargateCalldata. rewrite H0. eexists. reflexivity. }
  destruct H1 as [decoded H1].
  destruct (decodeStargateCalldata lib (reencoded lib decoded)) as [e|verify] eqn:H2.
  { eexists _, _, _. split; [apply (handleSend_verify_fails _ _ _ _ _ _ _ H1 H2)|].
    cbn [app attempted submitted receipts].
    destruct (same_refund_warning_quiet decoded AtApproval) as (-> & -> & ->).
    destruct (same_refund_warning_quiet decoded AtTransfer) as (_ & -> & _).
    repeat split; [cbn; lia|]. right. split; [discriminate|reflexivity]. }
  destruct (override_logs_quiet index decoded verify AtApproval) as (Ho1 & Ho2 & Ho3).
  destruct (override_logs_quiet index decoded verify AtTransfer) as (_ & Ho4 & _).
  destruct (BigInt env (Transaction.value (transaction step))) as [v|] eqn:H3.
  - rewrite (handleSend_submits _ _ _ _ _ _ _ _ H1 H2 H3).
    destruct (submitTransfer_shape
                (transferRequest step v (reencoded lib decoded))
                (after s (world s) (override_logs index decoded verify)))
      as (control & w & es & -> & Hat & Hap & Htr & Hrc).
    exists (inr control), w, (override_logs index decoded verify ++ es).
    rewrite after_after, attempted_app, !submitted_app, Hat, Hap, Htr, Ho1, Ho2, Ho4.
    repeat split; [cbn; lia|].
    destruct Hrc as [(-> & es0 & st & -> & Hes0)|(-> & Hes)].
    + left. split; [reflexivity|].
      exists (override_logs index decoded verify ++ es0), st.
      rewrite app_assoc, receipts_app, Ho3, Hes0. split; reflexivity.
    + right. split; [discriminate|]. rewrite receipts_app, Ho3, Hes. reflexivity.
  - eexists _, _, _. split; [apply (handleSend_value_fails _ _ _ _ _ _ _ H1 H2 H3)|].
    rewrite Ho1, Ho2, Ho3, Ho4.
    repeat split; [cbn; lia|]. right. split; [discriminate|reflexivity].
Qed.

(** The approval: at most one request, no receipt logged, and the three
    events of a confirmed approval whenever it answers. *)
Lemma handleApproval_shape (found : option Step) (s : State W) :
  exists r w es,
    handleApproval env found s = (r, after s w es) /\
    attempted es = [] /\
    submitted AtTransfer es = [] /\
    receipts es = [] /\
    (List.length (submitted AtApproval es) <= 1)%nat /\
    (forall u, r = inr u ->
       match found with
       | Some a =>
           exists h,
             es = [SendTransaction AtApproval (approvalRequest a);
                   WaitForTransactionReceipt AtApproval h;
                   LogApprovalConfirmed]
       | None => es = []
       end).
Proof.
  destruct found as [a|].
  - destruct (sendTransaction env (approvalRequest a) (world s)) as [[msg|h] w] eqn:H1.
    + eexists _, _, _. split; [apply (handleApproval_send_fails _ _ _ _ _ H1)|].
      repeat split; [cbn; lia|]. intros u Hu. discriminate Hu.
    + destruct (waitForTransactionReceipt env h w) as [[msg|st] w'] eqn:H2.
      * eexists _, _, _.
        split; [apply (handleApproval_wait_fails _ _ _ _ _ _ _ H1 H2)|].
        repeat split; [cbn; lia|]. intros u Hu. discriminate Hu.
      * eexists _, _, _.
        split; [apply (handleApproval_confirmed _ _ _ _ _ _ _ H1 H2)|].
        repeat split; [cbn; lia|]. intros u _. exists h. reflexivity.
  - exists (inr tt), (world s), []. rewrite after_same.
    repeat split; try (cbn; lia).
Qed.

(** One route, in two parts: the header, the step lines and the approval,
    then whatever follows the approval. *)
Lemma processRoute_shape (quote : StargateQuote) (s : State W) :
  exists r w es1 es2,
    processRoute env lib quote s = (r, after s w (es1 ++ es2)) /\
    attempted es1 = [route quote] /\ attempted es2 = [] /\
    submitted AtTransfer es1 = [] /\ submitted AtApproval es2 = [] /\
    receipts es1 = [] /\
    (List.length (submitted AtApproval es1) <= 1)%nat /\
    (List.length (submitted AtTransfer es2) <= 1)%nat /\
    ((r = inr Break /\
      exists es0 st, es2 = es0 ++ [LogReceipt st] /\ receipts es0 = [])
     \/ (r <> inr Break /\ receipts es2 = [])) /\
    (es2 <> [] ->
     forall a, approvalStep (classify (steps quote)) = Some a ->
       exists pre h,
         es1 = pre ++ [SendTransaction AtApproval (approvalRequest a);
                       WaitForTransactionReceipt AtApproval h;
                       LogApprovalConfirmed]).
Proof.
  rewrite processRoute_logged, logged_after.
  set (header := LogRoute (route quote) (List.length (steps quote))
                 :: step_logs 0 (steps quote)).
  assert (Hh : attempted header = [route quote] /\ receipts header = [] /\
               forall site, submitted site header = []).
  { unfold header. cbn [attempted receipts submitted].
    rewrite step_logs_no_receipt.
    destruct (step_logs_quiet AtApproval (steps quote) 0) as [-> Ha].
    destruct (step_logs_quiet AtTransfer (steps quote) 0) as [_ Ht].
    repeat split. intros []; assumption. }
  destruct Hh as (Hh1 & Hh2 & Hh3).
  destruct (handleApproval_shape (approvalStep (classify (steps quote)))
              (after s (world s) header))
    as (r & w & es & -> & Hat & Htr & Hrc & Hap & Hok).
  rewrite after_after.
  assert (H1 : attempted (header ++ es) = [route quote] /\
               submitted AtTransfer (header ++ es) = [] /\
               receipts (header ++ es) = [] /\
               (List.length (submitted AtApproval (header ++ es)) <= 1)%nat).
  { rewrite attempted_app, !submitted_app, receipts_app, Hh1, Hh2, !Hh3, Hat, Htr, Hrc.
    repeat split. exact Hap. }
  destruct H1 as (P1 & P2 & P3 & P4).
  assert (Hconf : forall u, r = inr u ->
            forall a, approvalStep (classify (steps quote)) = Some a ->
              exists pre h,
                header ++ es =
                pre ++ [SendTransaction AtApproval (approvalRequest a);
                        WaitForTransactionReceipt AtApproval h;
                        LogApprovalConfirmed]).
  { intros u Hu a Ha. specialize (Hok u Hu). rewrite Ha in Hok.
    destruct Hok as [h ->]. exists header, h. reflexivity. }
  destruct r as [e|[]].
  { exists (inl e), w, (header ++ es), []. rewrite app_nil_r.
    repeat split; try assumption; try (cbn; lia).
    - right. split; [discriminate|reflexivity].
    - intros Hne. contradiction Hne. reflexivity. }
  destruct (sendStep (classify (steps quote))) as [step|] eqn:Hs.
  - destruct (handleSend_shape step (sendStepIndex (classify (steps quote)))
                (after s w (header ++ es)))
      as (r & w' & es' & -> & Hat' & Hap' & Htr' & Hrc').
    rewrite after_after.
    exists r, w', (header ++ es), es'.
    repeat split; try assumption.
    intros _. exact (Hconf tt eq_refl).
  - cbn [world after]. rewrite after_after.
    exists (inr Continue), w, (header ++ es),
           [WarnNoSend (step_prefixes 0 (steps quote))].
    repeat split; try assumption; try (cbn; lia).
    + right. split; [discriminate|reflexivity].
    + intros _. exact (Hconf tt eq_refl).
Qed.

(** The loop: the routes attempted are the first so many, all of them
    when the loop ends without a receipt and without an error; and a
    receipt, if one is logged, is the last event of the loop. *)
Lemma forRoutes_shape (qs : list StargateQuote) (s : State W) :
  exists r w es,
    forRoutes env lib qs s = (r, after s w es) /\
    (exists k, attempted es = firstn k (map route qs)) /\
    (receipts es = [] \/
     exists es0 st, es = es0 ++ [LogReceipt st] /\ receipts es0 = [] /\ r = inr tt) /\
    (forall u, r = inr u -> receipts es = [] -> attempted es = map route qs).
Proof.
  revert s. induction qs as [|quote rest IH]; intros s.
  - exists (inr tt), (world s), []. rewrite after_same.
    split; [reflexivity|]. split; [exists 0%nat; reflexivity|].
    split; [left; reflexivity|]. intros; reflexivity.
  - rewrite forRoutes_cons.
    destruct (processRoute_shape quote s)
      as (r & w & es1 & es2 & -> & A1 & A2 & _ & _ & R1 & _ & _ & Hrc & _).
    assert (Hat : attempted (es1 ++ es2) = [route quote])
      by (rewrite attempted_app, A1, A2; reflexivity).
    destruct r as [e|[]].
    + exists (inl e), w, (es1 ++ es2). split; [reflexivity|].
      split; [exists 1%nat; exact Hat|]. split.
      * left. destruct Hrc as [(Hb & _)|(_ & R2)]; [discriminate Hb|].
        rewrite receipts_app, R1, R2. reflexivity.
      * intros u Hu. discriminate Hu.
    + exists (inr tt), w, (es1 ++ es2). split; [reflexivity|].
      split; [exists 1%nat; exact Hat|].
      destruct Hrc as [(_ & es0 & st & -> & R0)|(Hb & _)]; [|contradiction Hb; reflexivity].
      split.
      * right. exists (es1 ++ es0), st. rewrite app_assoc, receipts_app, R1, R0.
        repeat split.
      * intros u _ Hno. rewrite !receipts_app, R1, R0 in Hno. discriminate Hno.
    + destruct (IH (after s w (es1 ++ es2))) as (r & w' & es & -> & [k Hk] & Hr & Hall).
      rewrite after_after.
      exists r, w', ((es1 ++ es2) ++ es). split; [reflexivity|].
      assert (R12 : receipts (es1 ++ es2) = []).
      { destruct Hrc as [(Hb & _)|(_ & R2)]; [discriminate Hb|].
        rewrite receipts_app, R1, R2. reflexivity. }
      split; [|split].
      * exists (S k). rewrite attempted_app, Hat, Hk. reflexivity.
      * destruct Hr as [Hr|(es0 & st & -> & R0 & ->)].
        -- left. rewrite receipts_app, R12, Hr. reflexivity.
        -- right. exists ((es1 ++ es2) ++ es0), st.
           rewrite app_assoc, receipts_app, R12, R0. repeat split.
      * intros u Hu Hno. rewrite receipts_app, R12 in Hno.
        rewrite attempted_app, Hat, (Hall u Hu Hno). reflexivity.
Qed.

End Shapes.

Section Main.

Context {W : Type}.
Variable env : Env W.
Variable lib : Viem.

(** [main], by how its prelude and its loop end. *)
Lemma main_cases (s0 : State W) :
  main env lib s0 =
  match prelude env s0 with
  | (inl e, s1) => (inr 1, after s1 (world s1) [LogError e])
  | (inr qs, s1) =>
      match forRoutes env lib qs s1 with
      | (inl e, s2) => (inr 1, after s2 (world s2) [LogError e])
      | (inr _, s2) => (inr 0, after s2 (world s2) [LogCompleted])
      end
  end.
Proof.
  unfold main, try_catch, mbind.
  destruct (prelude env s0) as [[e|qs] s1]; [reflexivity|].
  destruct (forRoutes env lib qs s1) as [[e|[]] s2]; reflexivity.
Qed.

Lemma filter_none (l : list StargateQuote) :
  (forall q, In q l -> prefix "stargate/" (route q) = false) ->
  filter isStargate l = [].
Proof.
  induction l as [|q l IH]; intros H; [reflexivity|].
  cbn [filter]. unfold isStargate at 1. rewrite (H q (or_introl eq_refl)).
  apply IH. intros q' Hq'. apply H. right. exact Hq'.
Qed.

(** The prelude touches nothing but the quote service, and what it hands
    to the loop is the non-empty list of the Stargate routes of the
    answer. *)
Lemma prelude_shape (s0 : State W) :
  exists r w es,
    prelude env s0 = (r, after s0 w es) /\
    attempted es = [] /\ receipts es = [] /\
    (forall site, submitted site es = []) /\
    (forall qs, r = inr qs ->
       qs <> [] /\
       exists key acct resp,
         TEST_PRIVATE_KEY env = Some key /\
         privateKeyToAccount env key = inr acct /\
         fetch env (quoteParams acct) (world s0) = (inr resp, w) /\
         ok resp = true /\
         qs = filter isStargate (quotes (json resp)) /\
         es = [FetchQuote (quoteParams acct)]).
Proof.
  destruct (TEST_PRIVATE_KEY env) as [key|] eqn:Hk.
  2: { exists (inl MissingPrivateKey), (world s0), []. rewrite after_same.
       split; [unfold prelude, mbind, lift, throw; rewrite Hk; reflexivity|].
       repeat split; first [intros []; reflexivity | intros; congruence]. }
  destruct (truthy key) eqn:Ht.
  2: { exists (inl MissingPrivateKey), (world s0), []. rewrite after_same.
       split; [unfold prelude, mbind, lift, throw; rewrite Hk, Ht; reflexivity|].
       repeat split; first [intros []; reflexivity | intros; congruence]. }
  destruct (privateKeyToAccount env key) as [msg|acct] eqn:Ha.
  { exists (inl (External msg)), (world s0), []. rewrite after_same.
    split; [unfold prelude, mbind, lift, throw, ret; rewrite Hk, Ht; cbn;
            rewrite Ha; reflexivity|].
    repeat split; first [intros []; reflexivity | intros; congruence]. }
  assert (Hpre : prelude env s0 =
    match fetch env (quoteParams acct) (world s0) with
    | (inl msg, w) =>
        (inl (External msg), after s0 w [FetchQuote (quoteParams acct)])
    | (inr resp, w) =>
        if ok resp then
          match filter isStargate (quotes (json resp)) with
          | [] => (inl NoStargateRoutes, after s0 w [FetchQuote (quoteParams acct)])
          | qs => (inr qs, after s0 w [FetchQuote (quoteParams acct)])
          end
        else (inl (QuoteFetchFailed (status resp) (text resp)),
              after s0 w [FetchQuote (quoteParams acct)])
    end).
  { cbv beta delta [prelude getStargateQuote mbind lift throw ret call after].
    rewrite Hk, Ht. cbv beta iota. rewrite Ha. cbv beta iota.
    destruct (fetch env (quoteParams acct) (world s0)) as [[msg|resp] w]; [reflexivity|].
    cbn [world trace].
    destruct (ok resp); [|reflexivity].
    destruct (filter isStargate (quotes (json resp))); reflexivity. }
  rewrite Hpre.
  destruct (fetch env (quoteParams acct) (world s0)) as [[msg|resp] w] eqn:Hf.
  { exists (inl (External msg)), w, [FetchQuote (quoteParams acct)].
    split; [reflexivity|].
    repeat split; first [intros []; reflexivity | intros; congruence]. }
  destruct (ok resp) eqn:Hok.
  2: { exists (inl (QuoteFetchFailed (status resp) (text resp))), w,
         [FetchQuote (quoteParams acct)].
       split; [reflexivity|].
       repeat split; first [intros []; reflexivity | intros; congruence]. }
  destruct (filter isStargate (quotes (json resp))) as [|q rest] eqn:Hq.
  { exists (inl NoStargateRoutes), w, [FetchQuote (quoteParams acct)].
    split; [reflexivity|].
    repeat split; first [intros []; reflexivity | intros; congruence]. }
  exists (inr (q :: rest)), w, [FetchQuote (quoteParams acct)].
  split; [reflexivity|]. split; [reflexivity|]. split; [reflexivity|].
  split; [intros []; reflexivity|].
  intros l Hl. injection Hl as <-. split; [discriminate|].
  exists key, acct, resp.
  repeat split; first [assumption | reflexivity | symmetry; assumption].
Qed.

End Main.

Section Reports.

Context {W : Type}.
Variable env : Env W.
Variable lib : Viem.

(** The whole run: how it ends, which routes it attempts, and where a
    receipt can stand. *)
Lemma main_shape (s0 : State W) :
  exists r w es,
    main env lib s0 = (r, after s0 w es) /\
    ((r = inr 0 /\ exists es', es = es' ++ [LogCompleted])
     \/ (r = inr 1 /\ exists es' e, es = es' ++ [LogError e])) /\
    (attempted es = [] \/
     exists acct resp w1 k,
       fetch env (quoteParams acct) (world s0) = (inr resp, w1) /\
       ok resp = true /\
       attempted es = firstn k (map route (filter isStargate (quotes (json resp))))) /\
    (receipts es = [] \/
     exists es0 st, es = es0 ++ [LogReceipt st; LogCompleted] /\
                    receipts es0 = [] /\ r = inr 0) /\
    (r = inr 0 -> receipts es = [] ->
     exists acct resp w1,
       fetch env (quoteParams acct) (world s0) = (inr resp, w1) /\
       attempted es = map route (filter isStargate (quotes (json resp)))).
Proof.
  rewrite main_cases.
  destruct (prelude_shape env s0) as (r & w & es & -> & Hat & Hrc & Hsub & Hok).
  destruct r as [e|qs].
  { cbn [world]. rewrite after_after.
    exists (inr 1), w, (es ++ [LogError e]). split; [reflexivity|].
    split; [right; split; [reflexivity|]; exists es, e; reflexivity|].
    rewrite attempted_app, receipts_app, Hat, Hrc.
    split; [left; reflexivity|]. split; [left; reflexivity|].
    intros H. discriminate H. }
  destruct (Hok qs eq_refl) as (_ & key & acct & resp & _ & _ & Hf & Hresp & -> & ->).
  destruct (forRoutes_shape env lib (filter isStargate (quotes (json resp)))
              (after s0 w [FetchQuote (quoteParams acct)]))
    as (r & w' & es & -> & [k Hk] & Hr & Hall).
  rewrite after_after.
  destruct r as [e|[]]; cbn [world]; rewrite after_after.
  - exists (inr 1), w', (([FetchQuote (quoteParams acct)] ++ es) ++ [LogError e]).
    split; [reflexivity|].
    split; [right; split; [reflexivity|]; eexists _, e; reflexivity|].
    rewrite !attempted_app, !receipts_app. cbn [attempted receipts app].
    rewrite app_nil_r. split.
    + right. exists acct, resp, w, k. repeat split; assumption.
    + split; [|intros H; discriminate H].
      left. destruct Hr as [->|(es0 & st & _ & _ & H)]; [reflexivity|discriminate H].
  - exists (inr 0), w', (([FetchQuote (quoteParams acct)] ++ es) ++ [LogCompleted]).
    split; [reflexivity|].
    split; [left; split; [reflexivity|]; eexists; reflexivity|].
    rewrite !attempted_app, !receipts_app. cbn [attempted receipts app].
    rewrite !app_nil_r. split.
    + right. exists acct, resp, w, k. repeat split; assumption.
    + split.
      * destruct Hr as [->|(es0 & st & -> & R0 & _)]; [left; reflexivity|].
        right. exists (FetchQuote (quoteParams acct) :: es0), st.
        cbn [receipts]. rewrite R0, <- app_assoc. repeat split.
      * intros _ Hno. exists acct, resp, w. split; [exact Hf|].
        exact (Hall tt eq_refl Hno).
Qed.

Lemma no_match_send_none (l : list Step) :
  no_match (has_selector send_selector_hex) l ->
  sendStep (classify l) = None.
Proof.
  intros Hno. destruct (classify_inv l) as [_ H].
  destruct (sendStep (classify l)) as [t|]; [|reflexivity].
  destruct H as (i & _ & Hi & Hp & _).
  apply nth_error_In in Hi. rewrite (Hno t Hi) in Hp. discriminate Hp.
Qed.

Lemma no_match_approval_none (l : list Step) :
  no_match (has_selector approve_selector_hex) l ->
  approvalStep (classify l) = None.
Proof.
  intros Hno. destruct (classify_inv l) as [H _].
  destruct (approvalStep (classify l)) as [a|]; [|reflexivity].
  destruct H as (i & Hi & Hp & _).
  apply nth_error_In in Hi. rewrite (Hno a Hi) in Hp. discriminate Hp.
Qed.

Lemma processRoute_skipped (quote : StargateQuote) (s : State W) :
  no_match (has_selector approve_selector_hex) (steps quote) ->
  no_match (has_selector send_selector_hex) (steps quote) ->
  processRoute env lib quote s =
  (inr Continue, after s (world s) (skipped_events quote)).
Proof.
  intros Ha Hs. rewrite processRoute_logged.
  rewrite (no_match_approval_none _ Ha), (no_match_send_none _ Hs).
  rewrite handleApproval_none, logged_after, after_after. reflexivity.
Qed.

Lemma forRoutes_skipped (qs : list StargateQuote) (s : State W) :
  (forall q, In q qs ->
     no_match (has_selector approve_selector_hex) (steps q) /\
     no_match (has_selector send_selector_hex) (steps q)) ->
  forRoutes env lib qs s =
  (inr tt, after s (world s) (flat_map skipped_events qs)).
Proof.
  revert s. induction qs as [|quote rest IH]; intros s Hall.
  - cbn [forRoutes flat_map]. rewrite after_same. reflexivity.
  - destruct (Hall quote (or_introl eq_refl)) as [Ha Hs].
    rewrite forRoutes_cons, (processRoute_skipped quote s Ha Hs).
    rewrite IH by (intros q Hq; apply Hall; right; exact Hq).
    cbn [world after flat_map]. rewrite after_after. reflexivity.
Qed.

Lemma skipped_events_quiet (qs : list StargateQuote) :
  attempted (flat_map skipped_events qs) = map route qs /\
  receipts (flat_map skipped_events qs) = [] /\
  forall site, submitted site (flat_map skipped_events qs) = [].
Proof.
  induction qs as [|quote rest (IH1 & IH2 & IH3)]; [repeat split|].
  cbn [flat_map map]. unfold skipped_events at 1 3 5.
  cbn [app attempted receipts submitted].
  rewrite !attempted_app, !receipts_app, IH1, IH2, step_logs_no_receipt.
  destruct (step_logs_quiet AtApproval (steps quote) 0) as [-> Hsa].
  destruct (step_logs_quiet AtTransfer (steps quote) 0) as [_ Hst].
  repeat split. intros site. rewrite !submitted_app, IH3.
  destruct site; [rewrite Hsa|rewrite Hst]; reflexivity.
Qed.

End Reports.

(** ** The scan of a list in two parts *)

Lemma scan_from_app (l1 l2 : list Step) (i : nat) (acc : Scan) :
  scan_from i (l1 ++ l2) acc =
  scan_from (i + List.length l1) l2 (scan_from i l1 acc).
Proof.
  revert i acc. induction l1 as [|step rest IH]; intros i acc.
  - cbn. rewrite Nat.add_0_r. reflexivity.
  - cbn [app scan_from List.length]. rewrite IH.
    replace (S i + List.length rest)%nat with (i + S (List.length rest))%nat by lia.
    reflexivity.
Qed.

Lemma scan_from_join (l : list Step) (i : nat) (acc : Scan) :
  scan_from i l acc = scan_join i acc (classify l).
Proof.
  unfold classify. revert i acc. induction l as [|step rest IH]; intros i acc.
  - destruct acc; reflexivity.
  - cbn [scan_from]. rewrite (IH (S i)), (IH 1%nat).
    rewrite !scan_step_cases.
    destruct (has_selector approve_selector_hex step);
      [|destruct (has_selector send_selector_hex step)];
      destruct (scan_from 0 rest scan_start) as [[a|] [t|] k];
      destruct acc as [a0 t0 k0];
      unfold scan_join; cbn [approvalStep sendStep sendStepIndex scan_start];
      f_equal; lia.
Qed.

(** X1. Classifying a list made of two parts is classifying the parts and
    joining the results: a match in the second part replaces the match of
    the first, and its index is counted from the length of the first. *)
Theorem classify_app (l1 l2 : list Step) :
  classify (l1 ++ l2) = scan_join (List.length l1) (classify l1) (classify l2).
Proof.
  unfold classify at 1. rewrite scan_from_app, scan_from_join.
  reflexivity.
Qed.

(** ** The run, from its first line to its exit code *)

(** X2. With no private key in the environment, or an empty one, [main]
    reports the missing key and ends with exit code 1; the quote service
    and the ledger are not called. *)
Theorem missing_key_exits {W} (env : Env W) (lib : Viem) (s0 : State W) :
  TEST_PRIVATE_KEY env = None \/ TEST_PRIVATE_KEY env = Some "" ->
  main env lib s0 = (inr 1, after s0 (world s0) [LogError MissingPrivateKey]).
Proof.
  intros H. rewrite main_cases.
  assert (Hp : prelude env s0 = (inl MissingPrivateKey, s0)).
  { unfold prelude, mbind, lift, throw. destruct H as [-> | ->]; reflexivity. }
  rewrite Hp. reflexivity.
Qed.

(** X3. When the quote service cannot be reached, or answers with a
    status that is not ok, [main] reports the failure (with the status and
    the body of the answer) and ends with exit code 1 after that single
    request; the ledger is not called. *)
Theorem quote_failure_exits {W} (env : Env W) (lib : Viem) (s0 : State W)
    (key acct : string) :
  TEST_PRIVATE_KEY env = Some key ->
  truthy key = true ->
  privateKeyToAccount env key = inr acct ->
  match fetch env (quoteParams acct) (world s0) with
  | (inl msg, w) =>
      main env lib s0 =
      (inr 1, after s0 w [FetchQuote (quoteParams acct); LogError (External msg)])
  | (inr resp, w) =>
      ok resp = false ->
      main env lib s0 =
      (inr 1, after s0 w [FetchQuote (quoteParams acct);
                          LogError (QuoteFetchFailed (status resp) (text resp))])
  end.
Proof.
  intros Hk Ht Ha.
  rewrite main_cases.
  cbv beta delta [prelude getStargateQuote mbind lift throw ret call].
  rewrite Hk, Ht. cbv beta iota. rewrite Ha. cbv beta iota.
  destruct (fetch env (quoteParams acct) (world s0)) as [[msg|resp] w1].
  - cbn [world trace after]. unfold after. cbn [world trace].
    rewrite <- app_assoc. reflexivity.
  - intros Hno. cbn [world trace]. rewrite Hno.
    unfold after. cbn [world trace]. rewrite <- app_assoc. reflexivity.
Qed.

(** X4. When the answer of the quote service holds no route whose name
    starts with "stargate/" (none at all included), [main] reports that
    and ends with exit code 1; the ledger is not called. *)
Theorem no_stargate_route_exits {W} (env : Env W) (lib : Viem) (s0 : State W)
    (key acct : string) (resp : Response) (w : W) :
  TEST_PRIVATE_KEY env = Some key ->
  truthy key = true ->
  privateKeyToAccount env key = inr acct ->
  fetch env (quoteParams acct) (world s0) = (inr resp, w) ->
  ok resp = true ->
  (forall q, In q (quotes (json resp)) -> prefix "stargate/" (route q) = false) ->
  main env lib s0 =
  (inr 1, after s0 w [FetchQuote (quoteParams acct); LogError NoStargateRoutes]).
Proof.
  intros Hk Ht Ha Hf Hok Hnone.
  rewrite main_cases.
  cbv beta delta [prelude getStargateQuote mbind lift throw ret call].
  rewrite Hk, Ht. cbv beta iota. rewrite Ha. cbv beta iota.
  rewrite Hf. cbn [world trace]. rewrite Hok.
  rewrite (filter_none _ Hnone). cbn [List.length Nat.eqb].
  unfold after. cbn [world trace]. rewrite <- app_assoc. reflexivity.
Qed.

(** X5. [main] never lets an error escape and never ends silently: it
    ends with exit code 0 and the completion line as its last event, or
    with exit code 1 and the report of an error as its last event. *)
Theorem main_always_reports {W} (env : Env W) (lib : Viem) (s0 : State W) :
  exists r w es,
    main env lib s0 = (r, after s0 w es) /\
    ((r = inr 0 /\ exists es', es = es' ++ [LogCompleted])
     \/ (r = inr 1 /\ exists es' e, es = es' ++ [LogError e])).
Proof.
  destruct (main_shape env lib s0) as (r & w & es & Hm & Hend & _).
  exists r, w, es. split; assumption.
Qed.

Lemma in_firstn (k : nat) (l : list string) (x : string) :
  In x (firstn k l) -> In x l.
Proof.
  intros H. rewrite <- (firstn_skipn k l). apply in_or_app. left. exact H.
Qed.

(** X6. The routes a run attempts all have a name that starts with
    "stargate/": they are the first so many of the Stargate routes of the
    answer of the quote service, in the order of the answer. *)
Theorem only_stargate_routes_attempted {W} (env : Env W) (lib : Viem)
    (s0 : State W) :
  exists r w es,
    main env lib s0 = (r, after s0 w es) /\
    (forall name, In name (attempted es) -> prefix "stargate/" name = true) /\
    (attempted es = [] \/
     exists acct resp w1 k,
       fetch env (quoteParams acct) (world s0) = (inr resp, w1) /\
       attempted es =
       firstn k (map route (filter isStargate (quotes (json resp))))).
Proof.
  destruct (main_shape env lib s0) as (r & w & es & Hm & _ & Hat & _).
  exists r, w, es. split; [exact Hm|].
  destruct Hat as [Hnil|(acct & resp & w1 & k & Hf & _ & Hk)].
  - split; [|left; exact Hnil]. rewrite Hnil. intros name [].
  - split; [|right; exists acct, resp, w1, k; split; assumption].
    intros name Hin. rewrite Hk in Hin. apply in_firstn in Hin.
    apply in_map_iff in Hin. destruct Hin as (q & <- & Hq).
    apply filter_In in Hq. exact (proj2 Hq).
Qed.

(** X7. A run logs at most one receipt of a transfer, and does nothing
    after it but log its completion and end with exit code 0: no route is
    attempted and nothing is submitted once a receipt has come back. *)
Theorem nothing_after_receipt {W} (env : Env W) (lib : Viem) (s0 : State W) :
  exists r w es,
    main env lib s0 = (r, after s0 w es) /\
    (receipts es = [] \/
     exists es0 st, es = es0 ++ [LogReceipt st; LogCompleted] /\
                    receipts es0 = [] /\ r = inr 0).
Proof.
  destruct (main_shape env lib s0) as (r & w & es & Hm & _ & _ & Hrc & _).
  exists r, w, es. split; assumption.
Qed.

(** X8. A run that ends with exit code 0 without the receipt of a
    transfer has attempted every Stargate route of the answer: exit code
    0 alone does not tell that a transfer went through. *)
Theorem exit_zero_without_receipt {W} (env : Env W) (lib : Viem) (s0 : State W) :
  exists r w es,
    main env lib s0 = (r, after s0 w es) /\
    (r = inr 0 -> receipts es = [] ->
     exists acct resp w1,
       fetch env (quoteParams acct) (world s0) = (inr resp, w1) /\
       attempted es = map route (filter isStargate (quotes (json resp)))).
Proof.
  destruct (main_shape env lib s0) as (r & w & es & Hm & _ & _ & _ & Hall).
  exists r, w, es. split; assumption.
Qed.

(** ** One route *)

(** X9. A route submits at most one approval and at most one transfer,
    the approval first, wherever its step stands in the list; and a
    transfer is submitted only after the approval the scan found was
    submitted and its receipt awaited. *)
Theorem approval_precedes_transfer {W} (env : Env W) (lib : Viem)
    (quote : StargateQuote) (s : State W) :
  exists r w es1 es2,
    processRoute env lib quote s = (r, after s w (es1 ++ es2)) /\
    submitted AtTransfer es1 = [] /\
    submitted AtApproval es2 = [] /\
    (List.length (submitted AtApproval es1) <= 1)%nat /\
    (List.length (submitted AtTransfer es2) <= 1)%nat /\
    (submitted AtTransfer es2 <> [] ->
     forall a, approvalStep (classify (steps quote)) = Some a ->
       exists pre h,
         es1 = pre ++ [SendTransaction AtApproval (approvalRequest a);
                       WaitForTransactionReceipt AtApproval h;
                       LogApprovalConfirmed]).
Proof.
  destruct (processRoute_shape env lib quote s)
    as (r & w & es1 & es2 & Hr & _ & _ & T1 & A2 & _ & L1 & L2 & _ & Hconf).
  exists r, w, es1, es2. repeat split; try assumption.
  intros Hne. apply Hconf. intros ->. apply Hne. reflexivity.
Qed.

(** X10. When the value of the transfer step is no integer literal, the
    error of [BigInt] is thrown outside any handler of the route: the run
    ends with exit code 1 and no transfer is submitted, although the
    approval of the route, if any, has been submitted by then. *)
Theorem invalid_value_aborts {W} (env : Env W) (lib : Viem)
    (quote : StargateQuote) (rest : list StargateQuote) (s s1 : State W)
    (step : Step) (decoded verifyDecoded : TransferCall) :
  sendStep (classify (steps quote)) = Some step ->
  handleApproval env (approvalStep (classify (steps quote))) (logged quote s)
    = (inr tt, s1) ->
  decodeStargateCalldata lib (Transaction.data (transaction step)) = inr decoded ->
  decodeStargateCalldata lib (reencoded lib decoded) = inr verifyDecoded ->
  BigInt env (Transaction.value (transaction step)) = None ->
  run_aborts env lib (quote :: rest) s
    (BigIntSyntaxError (Transaction.value (transaction step)))
    (after s1 (world s1)
       (override_logs (sendStepIndex (classify (steps quote))) decoded verifyDecoded)) /\
  submitted AtTransfer
    (trace (after s1 (world s1)
              (override_logs (sendStepIndex (classify (steps quote)))
                 decoded verifyDecoded)))
  = submitted AtTransfer (trace s).
Proof.
  intros Hs Happ H1 H2 H3. split.
  - apply loop_error_aborts.
    rewrite forRoutes_cons, processRoute_logged, Happ, Hs.
    rewrite (handleSend_value_fails env lib step _ s1 decoded verifyDecoded H1 H2 H3).
    reflexivity.
  - destruct (handleApproval_frame env (approvalStep (classify (steps quote)))
                (logged quote s)) as (r & w & es & Hr & _ & Htr & _).
    rewrite Hr in Happ. injection Happ as _ <-.
    destruct (step_logs_quiet AtTransfer (steps quote) 0) as [_ Hl].
    destruct (override_logs_quiet (sendStepIndex (classify (steps quote)))
                decoded verifyDecoded AtTransfer) as (_ & Ho & _).
    rewrite logged_after, !after_after. cbn [after trace].
    rewrite !submitted_app. cbn [submitted]. rewrite Hl, Htr, Ho, !app_nil_r.
    reflexivity.
Qed.

(** X11. The status of the receipt of the approval is not looked at: once
    the receipt has come, whatever its status, the route goes on to its
    transfer step. *)
Theorem approval_status_is_ignored {W} (env : Env W) (lib : Viem)
    (quote : StargateQuote) (s : State W) (a step : Step) h w st w' :
  approvalStep (classify (steps quote)) = Some a ->
  sendStep (classify (steps quote)) = Some step ->
  sendTransaction env (approvalRequest a) (world s) = (inr h, w) ->
  waitForTransactionReceipt env h w = (inr st, w') ->
  processRoute env lib quote s =
  handleSend env lib step (sendStepIndex (classify (steps quote)))
    (after (logged quote s) w'
       [SendTransaction AtApproval (approvalRequest a);
        WaitForTransactionReceipt AtApproval h;
        LogApprovalConfirmed]).
Proof.
  intros Ha Hs H1 H2. rewrite processRoute_logged, Ha, Hs.
  rewrite (handleApproval_confirmed env a (logged quote s) h w st w' H1 H2).
  reflexivity.
Qed.

Lemma same_refund_warning_in (decoded : TransferCall) :
  In WarnSameRefund (same_refund_warning decoded) <->
  refundAddress decoded = customRefundAddress.
Proof.
  unfold same_refund_warning.
  destruct (bytes_eqb (refundAddress decoded) customRefundAddress) eqn:E.
  - apply bytes_eqb_eq in E. split; [intros _; exact E|intros _; left; reflexivity].
  - split; [intros []|]. intros H. apply bytes_eqb_eq in H. congruence.
Qed.

(** The warning occurs in the events of the part of a route behind the
    scan exactly when the decoded refund address is the custom one. *)
Lemma same_refund_warning_logged_iff {W} (env : Env W) (lib : Viem)
    (step : Step) (index : Z) (s : State W) (decoded : TransferCall) :
  decodeStargateCalldata lib (Transaction.data (transaction step)) = inr decoded ->
  exists r w es,
    handleSend env lib step index s = (r, after s w es) /\
    (In WarnSameRefund es <-> refundAddress decoded = customRefundAddress).
Proof.
  intros H1. pose proof (same_refund_warning_in decoded) as Hw.
  destruct (decodeStargateCalldata lib (reencoded lib decoded)) as [e|verify] eqn:H2.
  { eexists _, _, _. split; [apply (handleSend_verify_fails env lib _ _ _ _ _ H1 H2)|].
    rewrite <- Hw. cbn [app In]. split; [intros [H|H]; [discriminate H|exact H]|].
    intros H. right. exact H. }
  assert (Ho : In WarnSameRefund (override_logs index decoded verify) <->
               refundAddress decoded = customRefundAddress).
  { rewrite <- Hw. unfold override_logs. cbn [app In]. rewrite in_app_iff. cbn [In].
    split; [intros [H|[H|[H|[]]]]; [discriminate H|exact H|discriminate H]|].
    intros H. right. left. exact H. }
  destruct (BigInt env (Transaction.value (transaction step))) as [v|] eqn:H3.
  - rewrite (handleSend_submits env lib _ _ _ _ _ _ H1 H2 H3).
    set (req := transferRequest step v (reencoded lib decoded)).
    set (s3 := after s (world s) (override_logs index decoded verify)).
    assert (Hsub : exists control w es,
              submitTransfer env req s3 = (inr control, after s3 w es) /\
              ~ In WarnSameRefund es).
    { destruct (sendTransaction env req (world s3)) as [[msg|h] w] eqn:E1.
      - eexists _, _, _. split; [apply (submitTransfer_send_fails env _ _ _ _ E1)|].
        cbn [In]. intros [H|[H|[]]]; discriminate H.
      - destruct (waitForTransactionReceipt env h w) as [[msg|st] w'] eqn:E2.
        + eexists _, _, _.
          split; [apply (submitTransfer_wait_fails env _ _ _ _ _ _ E1 E2)|].
          cbn [In]. intros [H|[H|[H|[]]]]; discriminate H.
        + eexists _, _, _.
          split; [apply (submitTransfer_confirmed env _ _ _ _ _ _ E1 E2)|].
          cbn [In]. intros [H|[H|[H|[]]]]; discriminate H. }
    destruct Hsub as (control & w & es & -> & Hnot).
    unfold s3. rewrite after_after.
    eexists _, _, _. split; [reflexivity|].
    rewrite in_app_iff, Ho. split; [intros [H|H]; [exact H|contradiction]|].
    intros H. left. exact H.
  - eexists _, _, _. split; [apply (handleSend_value_fails env lib _ _ _ _ _ H1 H2 H3)|].
    exact Ho.
Qed.

(** X12. An override that changes nothing is warned about and nothing
    more.  When the refund address decoded from the step is already the
    custom one, the warning is logged and the route still re-encodes,
    reads the result back and submits the very transfer request it
    submits otherwise, from the same state of the ledger; when the two
    differ, no warning is logged.  In the events of the route the warning
    occurs exactly when the two addresses are equal. *)
Theorem same_refund_is_only_warned {W} (env : Env W) (lib : Viem)
    (step : Step) (index : Z) (s : State W)
    (decoded verifyDecoded : TransferCall) (v : Z) :
  decodeStargateCalldata lib (Transaction.data (transaction step)) = inr decoded ->
  decodeStargateCalldata lib (reencoded lib decoded) = inr verifyDecoded ->
  BigInt env (Transaction.value (transaction step)) = Some v ->
  (refundAddress decoded = customRefundAddress ->
   handleSend env lib step index s =
   submitTransfer env
     {| tx_to := Transaction.to (transaction step);
        tx_value := Some v;
        tx_data :=
          encodeStargateCalldata lib (sendParam decoded) (fee decoded)
            customRefundAddress |}
     (after s (world s)
        [LogUsingStep index; WarnSameRefund;
         LogVerification
           (bytes_eqb (refundAddress verifyDecoded) customRefundAddress)])) /\
  (refundAddress decoded <> customRefundAddress ->
   handleSend env lib step index s =
   submitTransfer env
     {| tx_to := Transaction.to (transaction step);
        tx_value := Some v;
        tx_data :=
          encodeStargateCalldata lib (sendParam decoded) (fee decoded)
            customRefundAddress |}
     (after s (world s)
        [LogUsingStep index;
         LogVerification
           (bytes_eqb (refundAddress verifyDecoded) customRefundAddress)])) /\
  (exists r w es,
     handleSend env lib step index s = (r, after s w es) /\
     (In WarnSameRefund es <-> refundAddress decoded = customRefundAddress)).
Proof.
  intros H1 H2 H3.
  pose proof (handleSend_submits env lib step index s decoded verifyDecoded v
                H1 H2 H3) as Hsub.
  unfold override_logs, same_refund_warning, transferRequest, reencoded in Hsub.
  split; [|split].
  - intros Heq. apply bytes_eqb_eq in Heq. rewrite Heq in Hsub. exact Hsub.
  - intros Hne.
    destruct (bytes_eqb (refundAddress decoded) customRefundAddress) eqn:E.
    + apply bytes_eqb_eq in E. contradiction.
    + exact Hsub.
  - exact (same_refund_warning_logged_iff env lib step index s decoded H1).
Qed.

(** X13. When none of the Stargate routes has a step with the approve or
    the send selector, every route is attempted and skipped in turn, the
    ledger is never called, and the run still ends with exit code 0. *)
Theorem nothing_to_send_exits_zero {W} (env : Env W) (lib : Viem)
    (s0 s : State W) (qs : list StargateQuote) :
  prelude env s0 = (inr qs, s) ->
  (forall q, In q qs ->
     no_match (has_selector approve_selector_hex) (steps q) /\
     no_match (has_selector send_selector_hex) (steps q)) ->
  exists es,
    main env lib s0 = (inr 0, after s (world s) (es ++ [LogCompleted])) /\
    attempted es = map route qs /\
    submitted AtApproval es = [] /\
    submitted AtTransfer es = [] /\
    receipts es = [].
Proof.
  intros Hp Hall. exists (flat_map skipped_events qs).
  destruct (skipped_events_quiet qs) as (Hat & Hrc & Hsub).
  split; [|repeat split; [exact Hat|apply Hsub|apply Hsub|exact Hrc]].
  rewrite main_cases, Hp, (forRoutes_skipped env lib qs s Hall).
  cbn [world after]. rewrite after_after. reflexivity.
Qed.

(** ** The further statements at sample runs *)

Lemma missing_key_exits_witness :
  let env := scripted_with (Some "") unavailable in
  let s0 := start [Sent "0xh"] in
  TEST_PRIVATE_KEY env = Some "" /\
  main env viem s0 = (inr 1, after s0 (world s0) [LogError MissingPrivateKey]).
Proof.
  intros env s0. split; [reflexivity|].
  apply (missing_key_exits env viem s0). right. reflexivity.
Defined.

Lemma quote_failure_exits_witness :
  let env := scripted_with (Some "0x01") unavailable in
  let s0 := start [Sent "0xh"] in
  let acct := "0x00000000000000000000000000000000000000aa" in
  privateKeyToAccount env "0x01" = inr acct /\
  main env viem s0 =
  (inr 1, after s0 [Sent "0xh"]
            [FetchQuote (quoteParams acct);
             LogError (QuoteFetchFailed 503 "Service Unavailable")]).
Proof.
  intros env s0 acct. split; [reflexivity|].
  exact (quote_failure_exits env viem s0 "0x01" acct
           eq_refl eq_refl eq_refl eq_refl).
Defined.

Lemma no_stargate_route_exits_witness :
  let env := scripted {| quotes := [foreign] |} in
  let s0 := start [Sent "0xh"] in
  let acct := "0x00000000000000000000000000000000000000aa" in
  (forall q, In q [foreign] -> prefix "stargate/" (route q) = false) /\
  main env viem s0 =
  (inr 1, after s0 [Sent "0xh"]
            [FetchQuote (quoteParams acct); LogError NoStargateRoutes]).
Proof.
  intros env s0 acct.
  assert (H : forall q, In q [foreign] -> prefix "stargate/" (route q) = false)
    by (intros q [<-|[]]; reflexivity).
  split; [exact H|].
  exact (no_stargate_route_exits env viem s0 "0x01" acct
           {| ok := true; status := 200; text := "";
              json := {| quotes := [foreign] |} |}
           [Sent "0xh"] eq_refl eq_refl eq_refl eq_refl eq_refl H).
Defined.

Lemma invalid_value_aborts_witness :
  let env := scripted {| quotes := [bad_value; bus] |} in
  let s0 := start [Sent "0xh"; Receipt success] in
  let s := snd (prelude env s0) in
  let decoded := sample_call sample_refund in
  let verifyDecoded := sample_call customRefundAddress in
  let s' := after (logged bad_value s) (world s) (override_logs 0 decoded verifyDecoded) in
  BigInt env (Transaction.value (transaction step_F)) = None /\
  run_aborts env viem [bad_value; bus] s (BigIntSyntaxError "1e18") s' /\
  submitted AtTransfer (trace s') = submitted AtTransfer (trace s) /\
  main env viem s0 =
  (inr 1, after s' (world s') [LogError (BigIntSyntaxError "1e18")]).
Proof.
  intros env s0 s decoded verifyDecoded s'.
  assert (Hv : BigInt env (Transaction.value (transaction step_F)) = None)
    by reflexivity.
  assert (Hs : sendStep (classify (steps bad_value)) = Some step_F)
    by (vm_compute; reflexivity).
  assert (Ha : handleApproval env (approvalStep (classify (steps bad_value)))
                 (logged bad_value s) = (inr tt, logged bad_value s))
    by reflexivity.
  assert (H1 : decodeStargateCalldata viem (Transaction.data (transaction step_F))
               = inr decoded) by (vm_compute; reflexivity).
  assert (H2 : decodeStargateCalldata viem (reencoded viem decoded)
               = inr verifyDecoded) by (vm_compute; reflexivity).
  destruct (invalid_value_aborts env viem bad_value [bus] s (logged bad_value s)
              step_F decoded verifyDecoded Hs Ha H1 H2 Hv) as [Hrun Hsub].
  split; [exact Hv|]. split; [exact Hrun|]. split; [exact Hsub|].
  apply (proj2 Hrun s0 [bad_value; bus] s); reflexivity.
Defined.

Lemma approval_status_is_ignored_witness :
  let env := scripted two_routes in
  let s := start [Sent "0xh"; Receipt reverted; Sent "0xt"; Receipt success] in
  waitForTransactionReceipt env "0xh" [Receipt reverted; Sent "0xt"; Receipt success]
    = (inr reverted, [Sent "0xt"; Receipt success]) /\
  processRoute env viem taxi s =
  handleSend env viem step_C 1
    (after (logged taxi s) [Sent "0xt"; Receipt success]
       [SendTransaction AtApproval (approvalRequest step_A);
        WaitForTransactionReceipt AtApproval "0xh";
        LogApprovalConfirmed]).
Proof.
  intros env s. split; [reflexivity|].
  refine (approval_status_is_ignored env viem taxi s step_A step_C "0xh"
            [Receipt reverted; Sent "0xt"; Receipt success] reverted
            [Sent "0xt"; Receipt success] _ _ eq_refl eq_refl);
    vm_compute; reflexivity.
Defined.

Lemma same_refund_is_only_warned_witness :
  let env := scripted two_routes in
  let s := start [Sent "0xh"; Receipt success] in
  let decoded := sample_call customRefundAddress in
  decodeStargateCalldata viem (Transaction.data (transaction step_G)) = inr decoded /\
  refundAddress decoded = customRefundAddress /\
  handleSend env viem step_G 0 s =
  submitTransfer env
    {| tx_to := "0xrouter"; tx_value := Some 7;
       tx_data :=
         encodeStargateCalldata viem (sendParam decoded) (fee decoded)
           customRefundAddress |}
    (after s (world s)
       [LogUsingStep 0; WarnSameRefund; LogVerification true]).
Proof.
  intros env s decoded.
  assert (H1 : decodeStargateCalldata viem (Transaction.data (transaction step_G))
               = inr decoded) by (vm_compute; reflexivity).
  assert (H2 : decodeStargateCalldata viem (reencoded viem decoded) = inr decoded)
    by (vm_compute; reflexivity).
  assert (H3 : BigInt env (Transaction.value (transaction step_G)) = Some 7)
    by reflexivity.
  split; [exact H1|]. split; [reflexivity|].
  exact (proj1 (same_refund_is_only_warned env viem step_G 0 s decoded decoded 7
                  H1 H2 H3) eq_refl).
Defined.

Lemma nothing_to_send_exits_zero_witness :
  let env := scripted {| quotes := [idle; foreign; idle] |} in
  let s0 := start [Sent "0xh"] in
  let s := snd (prelude env s0) in
  prelude env s0 = (inr [idle; idle], s) /\
  exists es,
    main env viem s0 = (inr 0, after s (world s) (es ++ [LogCompleted])) /\
    attempted es = map route [idle; idle] /\
    submitted AtApproval es = [] /\
    submitted AtTransfer es = [] /\
    receipts es = [].
Proof.
  intros env s0 s.
  assert (Hp : prelude env s0 = (inr [idle; idle], s)) by reflexivity.
  split; [exact Hp|].
  apply (nothing_to_send_exits_zero env viem s0 s [idle; idle] Hp).
  intros q [<-|[<-|[]]]; split; intros step [<-|[]]; reflexivity.
Defined.

(** An approval step that stands behind the transfer step in the quote is
    submitted before the transfer all the same. *)
Example approval_listed_last_goes_first :
  let run := processRoute (scripted two_routes) viem send_then_approve
               (start [Sent "0xa"; Receipt success; Sent "0xt"; Receipt success]) in
  sendStepIndex (classify (steps send_then_approve)) = 0 /\
  fst run = inr Break /\
  exists pre mid post req,
    trace (snd run) =
    pre ++ SendTransaction AtApproval (approvalRequest step_A)
        :: mid ++ SendTransaction AtTransfer req :: post.
Proof.
  cbv zeta. split; [vm_compute; reflexivity|]. split; [vm_compute; reflexivity|].
  vm_compute. eexists [_; _; _], [_; _; _; _], [_; _], _. reflexivity.
Qed.

(** ** What the scan and the run depend on *)

Lemma scan_from_map (f : Step -> Step) (l : list Step) (i : nat) (acc : Scan) :
  (forall step, Transaction.data (transaction (f step))
                = Transaction.data (transaction step)) ->
  scan_from i (map f l) (scan_map f acc) = scan_map f (scan_from i l acc).
Proof.
  intros Hdata. revert i acc. induction l as [|step rest IH]; intros i acc.
  - reflexivity.
  - cbn [map scan_from].
    replace (scan_step (scan_map f acc) i (f step))
      with (scan_map f (scan_step acc i step)); [apply IH|].
    unfold scan_step. rewrite Hdata.
    destruct (truthy _); [|reflexivity].
    destruct (functionSelector _ =? approve_selector_hex)%string; [reflexivity|].
    destruct (functionSelector _ =? send_selector_hex)%string; reflexivity.
Qed.

(** X14. The scan looks at nothing but the call data of the steps: after
    any change of the steps that keeps their call data (another type tag,
    sender, target, value), it finds the changed forms of the same steps
    at the same index. *)
Theorem classify_depends_on_data_only (f : Step -> Step) (l : list Step) :
  (forall step, Transaction.data (transaction (f step))
                = Transaction.data (transaction step)) ->
  classify (map f l) = scan_map f (classify l).
Proof.
  intros Hdata. unfold classify.
  exact (scan_from_map f l 0 scan_start Hdata).
Qed.

Lemma classify_depends_on_data_only_witness :
  (forall step, Transaction.data (transaction (disguise step))
                = Transaction.data (transaction step)) /\
  classify (map disguise [step_A; step_B; step_C])
  = scan_map disguise (classify [step_A; step_B; step_C]).
Proof.
  assert (H : forall step, Transaction.data (transaction (disguise step))
                           = Transaction.data (transaction step))
    by (intros step; reflexivity).
  split; [exact H|].
  exact (classify_depends_on_data_only disguise [step_A; step_B; step_C] H).
Defined.

Section Counts.

Context {W : Type}.
Variable env : Env W.
Variable lib : Viem.


End Counts.


(** C3. On the routes [bus; taxi], with a ledger that returns for the
    transfer of the first route a receipt of status reverted, the run logs
    the receipt and stops: the second route is never attempted, the
    replies meant for it stay unused, no failure of the route is logged
    and [main] ends with exit code 0. *)
Theorem reverted_receipt_ends_loop :
  let run := main (scripted bus_then_taxi) viem
               (start [Sent "0xh"; Receipt reverted;
                       Sent "0xa"; Receipt success; Sent "0xt"; Receipt success]) in
  fst run = inr 0 /\
  attempted (trace (snd run)) = ["stargate/bus"] /\
  receipts (trace (snd run)) = [reverted] /\
  List.length (submitted AtTransfer (trace (snd run))) = 1%nat /\
  submitted AtApproval (trace (snd run)) = [] /\
  world (snd run) = [Sent "0xa"; Receipt success; Sent "0xt"; Receipt success] /\
  ~ In "stargate/taxi" (attempted (trace (snd run))).
Proof.
  cbv zeta. repeat split; try (vm_compute; reflexivity).
  intros H. vm_compute in H. destruct H as [H|[]]. discriminate H.
Qed.

